(** * A model of the buffered, rotating file logger (logger.hpp / logger.cpp)

    The development embeds the [Logger] class: its level filter, the
    timestamp provider, the buffered writer with its size accounting and
    rotation, and the facade operations [init], [log], [error], [warning],
    [info], [debug] and [flush].  The file system, the two output streams and
    the clocks are the environment; they are explicit values threaded through
    the operations. *)

From Stdlib Require Import ZArith Ascii String DecimalString Lia List Bool.
From stdpp Require Import base tactics option list gmap strings.

Local Open Scope string_scope.
Local Open Scope Z_scope.

(* ===================================================================== *)
(** * Constants of logger.hpp *)
(* ===================================================================== *)

Definition BUFFER_SIZE : Z := 256.
Definition TIME_STAMP_BUFFER : Z := 32.
Definition MAX_FILE_SIZE : Z := 32768.
Definition LOG_FILE_PATH : string := "./logs/logger.log".
Definition LOG_BUFFER_CAPACITY : Z := 100.
Definition FLUSH_INTERVAL_MS : Z := 1000.

(** [static const size_t m_bufferSize = BUFFER_SIZE;] *)
Definition m_bufferSize : Z := BUFFER_SIZE.

(** [size_t] is a 64-bit unsigned integer; arithmetic on it wraps around. *)
Definition SIZE_WIDTH : Z := 64.
Definition wrap_size_t (z : Z) : Z := z mod 2 ^ SIZE_WIDTH.

(* ===================================================================== *)
(** * LogLevel *)
(* ===================================================================== *)

(** [enum class LogLevel { ERR = 0, WARNING, INFO, DEBUG };] *)
Inductive LogLevel : Type :=
  | ERR
  | WARNING
  | INFO
  | DEBUG.

#[global] Instance LogLevel_eq_dec : EqDecision LogLevel.
Proof. solve_decision. Defined.

(** The underlying value of an enumerator. *)
Definition LogLevel_value (l : LogLevel) : Z :=
  match l with
  | ERR => 0
  | WARNING => 1
  | INFO => 2
  | DEBUG => 3
  end.

(** The built-in [>] of a scoped enumeration compares underlying values. *)
Definition LogLevel_gt (a b : LogLevel) : bool :=
  LogLevel_value a >? LogLevel_value b.

(** [Logger::logLevelToString].  The [default] branch of the switch is kept:
    it is taken by no enumerator. *)
Definition logLevelToString (level : LogLevel) : string :=
  match LogLevel_value level with
  | 0 => "ERROR"
  | 1 => "WARN "
  | 2 => "INFO "
  | 3 => "DEBUG"
  | _ => "?????"
  end.

(* ===================================================================== *)
(** * C strings and printf-style formatting *)
(* ===================================================================== *)

Module CStr.

(** The bytes of a [char] buffer up to, not including, the first NUL:
    what [operator<<] and ["%s"] read from a [const char *]. *)
Fixpoint c_str (s : string) : string :=
  match s with
  | EmptyString => EmptyString
  | String c r => if Ascii.eqb c Ascii.zero then EmptyString
                  else String c (c_str r)
  end.

(** The first [n] bytes of [s]. *)
Fixpoint take (n : nat) (s : string) : string :=
  match n, s with
  | O, _ => EmptyString
  | S _, EmptyString => EmptyString
  | S k, String c r => String c (take k r)
  end.

(** [snprintf(buffer, size, ...)] and [vsnprintf(buffer, size, ...)]: the
    buffer receives at most [size - 1] bytes of the expansion, then a NUL;
    the return value, which alone tells that bytes were cut, is discarded at
    every call site of the logger.  [expansion] is the full text the
    format and its arguments expand to; the result is the buffer read back
    as a C string. *)
Definition snprintf (size : Z) (expansion : string) : string :=
  c_str (take (Z.to_nat (size - 1)) expansion).

Fixpoint repeat_char (c : ascii) (n : nat) : string :=
  match n with
  | O => EmptyString
  | S k => String c (repeat_char c k)
  end.

Definition decimal (n : Z) : string :=
  NilZero.string_of_uint (N.to_uint (Z.to_N n)).

(** The conversions ["%0<width>d"] and ["%0<width>ld"]: decimal digits,
    padded on the left with zeros up to [width] characters, a minus sign
    counting for one of them. *)
Definition fmt_d0 (width : nat) (n : Z) : string :=
  if n <? 0
  then
    let d := decimal (- n) in
    "-" +:+ repeat_char "0" (width - 1 - String.length d) +:+ d
  else
    let d := decimal n in
    repeat_char "0" (width - String.length d) +:+ d.

End CStr.

(* ===================================================================== *)
(** * Timestamp provider *)
(* ===================================================================== *)

(** The fields of [std::tm] that [getTimestamp] reads. *)
Record tm : Type := mk_tm {
  tm_year : Z;
  tm_mon : Z;
  tm_mday : Z;
  tm_hour : Z;
  tm_min : Z;
  tm_sec : Z
}.

(** What one call of [getTimestamp] obtains from the platform:
    [system_clock::now().time_since_epoch()] counted in nanoseconds (the
    tick of [system_clock] with the toolchain the project builds with), and
    the broken-down local time [localtime_r] computes for that instant. *)
Record wall_clock : Type := mk_wall_clock {
  since_epoch_ns : Z;
  local_time : tm
}.

(** [duration_cast<std::chrono::microseconds>(d)]: truncation toward zero. *)
Definition to_microseconds (ns : Z) : Z := Z.quot ns 1000.

(** [duration_cast<std::chrono::milliseconds>(d)]. *)
Definition to_milliseconds (ns : Z) : Z := Z.quot ns 1000000.

(** The local [now_ms] of [getTimestamp]:
    [duration_cast<microseconds>(now.time_since_epoch()) % 1000]. *)
Definition now_ms (ns : Z) : Z := Z.rem (to_microseconds ns) 1000.

(** [Logger::getTimestamp(buffer, bufferSize)]. *)
Definition getTimestamp (bufferSize : Z) (now : wall_clock) : string :=
  let now_tm := local_time now in
  CStr.snprintf bufferSize
    (CStr.fmt_d0 4 (tm_year now_tm + 1900) +:+ "-" +:+
     CStr.fmt_d0 2 (tm_mon now_tm + 1) +:+ "-" +:+
     CStr.fmt_d0 2 (tm_mday now_tm) +:+ " " +:+
     CStr.fmt_d0 2 (tm_hour now_tm) +:+ ":" +:+
     CStr.fmt_d0 2 (tm_min now_tm) +:+ ":" +:+
     CStr.fmt_d0 2 (tm_sec now_tm) +:+ "." +:+
     CStr.fmt_d0 3 (now_ms (since_epoch_ns now))).

(* ===================================================================== *)
(** * The environment: file system and standard streams *)
(* ===================================================================== *)

(** [files] maps the path of every regular file to its content, [dirs] is the
    set of directories, and [readonly] the set of paths on which the process
    may not create, open for writing, remove or rename anything.  [cout] and
    [cerr] hold the bytes written to the two standard streams. *)
Record World : Type := mk_World {
  files : gmap string string;
  dirs : gset string;
  readonly : gset string;
  cout : string;
  cerr : string
}.

Definition with_files (fs : gmap string string) (w : World) : World :=
  mk_World fs (dirs w) (readonly w) (cout w) (cerr w).
Definition with_dirs (ds : gset string) (w : World) : World :=
  mk_World (files w) ds (readonly w) (cout w) (cerr w).
Definition write_cout (data : string) (w : World) : World :=
  mk_World (files w) (dirs w) (readonly w) (cout w +:+ data) (cerr w).
Definition write_cerr (data : string) (w : World) : World :=
  mk_World (files w) (dirs w) (readonly w) (cout w) (cerr w +:+ data).

Module Fs.

(** [std::error_code]: [None] is success, [Some msg] carries the message. *)
Definition error_code : Type := option string.

Definition is_file (w : World) (p : string) : bool :=
  bool_decide (p ∈ dom (files w)).
Definition is_dir (w : World) (p : string) : bool :=
  bool_decide (p ∈ dirs w).
Definition writable (w : World) (p : string) : bool :=
  bool_decide (p ∉ readonly w).

(** [std::filesystem::exists]. *)
Definition exists_ (w : World) (p : string) : bool :=
  is_file w p || is_dir w p.

(** The content of the file at [p]; empty when there is none. *)
Definition content (w : World) (p : string) : string :=
  default "" (files w !! p).

(** [std::filesystem::remove(p, ec)]. *)
Definition remove (w : World) (p : string) : error_code * World :=
  if writable w p
  then (None, with_dirs (dirs w ∖ {[p]}) (with_files (delete p (files w)) w))
  else (Some "Permission denied", w).

(** [std::filesystem::rename(from, to, ec)]: one atomic step that moves
    the file and replaces a file already at [to]. *)
Definition rename (w : World) (from to : string) : error_code * World :=
  match files w !! from with
  | None => (Some "No such file or directory", w)
  | Some data =>
      if writable w from && writable w to && negb (is_dir w to)
      then (None, with_files (<[to := data]> (delete from (files w))) w)
      else (Some "Permission denied", w)
  end.

(** [std::filesystem::create_directories(dir)]: [None] stands for the
    [filesystem_error] it throws. *)
Definition create_directories (w : World) (dir : string)
  : option (bool * World) :=
  if is_dir w dir then Some (false, w)
  else if writable w dir && negb (is_file w dir)
  then Some (true, with_dirs ({[dir]} ∪ dirs w) w)
  else None.

(** The position of the last ['/'] of [p], if any. *)
Fixpoint last_slash (p : string) : option nat :=
  match p with
  | EmptyString => None
  | String c r =>
      match last_slash r with
      | Some i => Some (S i)
      | None => if Ascii.eqb c "/" then Some O else None
      end
  end.

(** [std::filesystem::path::parent_path] for paths in the generic format
    without a root name and without repeated separators: all that stands
    before the last ['/'], the root directory being its own parent. *)
Definition parent_path (p : string) : string :=
  match last_slash p with
  | None => ""
  | Some O => "/"
  | Some i => CStr.take i p
  end.

Inductive openmode : Type :=
  | app_out     (** [ios_base::app | ios_base::out] *)
  | out.        (** [ios_base::out] *)

(** Opening [p] for writing: the file is created when missing, and [out]
    alone truncates it. *)
Definition open (w : World) (p : string) (mode : openmode) : option World :=
  if writable w p && negb (is_dir w p)
  then
    match mode with
    | app_out => Some (with_files (<[p := content w p]> (files w)) w)
    | out => Some (with_files (<[p := ""]> (files w)) w)
    end
  else None.

(** Appending [data] to the file at [p]. *)
Definition append (w : World) (p : string) (data : string) : World :=
  with_files (<[p := content w p +:+ data]> (files w)) w.

End Fs.

(* ===================================================================== *)
(** * std::ofstream *)
(* ===================================================================== *)

(** The stream is open on [target] or closed; [good] is false as soon as
    [failbit] or [badbit] is set.  The put area of the file buffer is not kept
    apart from the file: what is inserted into an open stream is at once part
    of the content of its file, so that [flush()], and the flush implied by
    [close()], have nothing left to move. *)
Record ofstream : Type := mk_ofstream {
  is_open : bool;
  target : string;
  good : bool
}.

Module Ofstream.

Definition closed : ofstream := mk_ofstream false "" true.

Definition set_fail (f : ofstream) : ofstream :=
  mk_ofstream (is_open f) (target f) false.

(** [f.open(p, mode)]: fails on a stream that is already open; success
    clears the state flags, failure sets [failbit]. *)
Definition open (f : ofstream) (w : World) (p : string) (mode : Fs.openmode)
  : ofstream * World :=
  if is_open f then (set_fail f, w)
  else
    match Fs.open w p mode with
    | Some w' => (mk_ofstream true p true, w')
    | None => (set_fail f, w)
    end.

(** [f.close()]. *)
Definition close (f : ofstream) : ofstream :=
  if is_open f then mk_ofstream false (target f) (good f)
  else set_fail f.

(** [f << data]: nothing happens on a stream that is not good; on an open
    stream the bytes go to the end of the file; inserting at least one
    character into a closed stream sets [badbit]. *)
Definition insert (f : ofstream) (w : World) (data : string)
  : ofstream * World :=
  if negb (good f) then (f, w)
  else if is_open f then (f, Fs.append w (target f) data)
  else if String.eqb data "" then (f, w)
  else (set_fail f, w).

(** [f.flush()]. *)
Definition flush (f : ofstream) : ofstream := f.

(** [f.seekp(0, ios_base::end)]. *)
Definition seekp_end (f : ofstream) : ofstream := f.

(** [f.tellp()] with the put position at the end: [-1] on a stream that
    is closed or not good. *)
Definition tellp (f : ofstream) (w : World) : Z :=
  if good f && is_open f
  then Z.of_nat (String.length (Fs.content w (target f)))
  else -1.

End Ofstream.

(* ===================================================================== *)
(** * The Logger *)
(* ===================================================================== *)

(** The data members of [class Logger]; [m_logMutex] is left to the part on
    threads below.  [m_lastFlushTime] is a [steady_clock::time_point], kept
    as its nanosecond count. *)
Record Logger : Type := mk_Logger {
  m_currentLevel : LogLevel;
  m_logFilePath : string;
  m_maxFileSize : Z;
  m_initialized : bool;
  m_consoleOutput : bool;
  m_logFile : ofstream;
  m_messageBuffer : list string;
  m_currentFileSize : Z;
  m_lastFlushTime : Z
}.

Definition with_logFile (f : ofstream) (s : Logger) : Logger :=
  mk_Logger (m_currentLevel s) (m_logFilePath s) (m_maxFileSize s)
    (m_initialized s) (m_consoleOutput s) f (m_messageBuffer s)
    (m_currentFileSize s) (m_lastFlushTime s).
Definition with_messageBuffer (b : list string) (s : Logger) : Logger :=
  mk_Logger (m_currentLevel s) (m_logFilePath s) (m_maxFileSize s)
    (m_initialized s) (m_consoleOutput s) (m_logFile s) b
    (m_currentFileSize s) (m_lastFlushTime s).
Definition with_currentFileSize (n : Z) (s : Logger) : Logger :=
  mk_Logger (m_currentLevel s) (m_logFilePath s) (m_maxFileSize s)
    (m_initialized s) (m_consoleOutput s) (m_logFile s) (m_messageBuffer s)
    n (m_lastFlushTime s).
Definition with_initialized (b : bool) (s : Logger) : Logger :=
  mk_Logger (m_currentLevel s) (m_logFilePath s) (m_maxFileSize s)
    b (m_consoleOutput s) (m_logFile s) (m_messageBuffer s)
    (m_currentFileSize s) (m_lastFlushTime s).
Definition with_config (path : string) (level : LogLevel) (console : bool)
    (maxFileSize : Z) (s : Logger) : Logger :=
  mk_Logger level path maxFileSize (m_initialized s) console (m_logFile s)
    (m_messageBuffer s) (m_currentFileSize s) (m_lastFlushTime s).

(** The size of a [std::string], as a [size_t]. *)
Definition size (s : string) : Z := Z.of_nat (String.length s).

(** A [std::string] after [std::move] has handed its content to another
    string.  The standard leaves the value unspecified; libstdc++, with which
    the build workflow of the project compiles on every platform, leaves the
    source empty, and so do libc++ and the MSVC library. *)
Definition moved_from (s : string) : string := "".

(** [Logger::Logger()].  [steady_now] is the reading of
    [steady_clock::now()].  The constructor gives [m_currentFileSize] no
    value; the only instance is the function-local static of [getInstance],
    whose storage is zero-initialised before the constructor runs. *)
Definition Logger_new (steady_now : Z) : Logger :=
  {| m_currentLevel := INFO;
     m_logFilePath := LOG_FILE_PATH;
     m_maxFileSize := MAX_FILE_SIZE;
     m_initialized := false;
     m_consoleOutput := true;
     m_logFile := Ofstream.closed;
     m_messageBuffer := [];
     m_currentFileSize := 0;
     m_lastFlushTime := steady_now |}.

(** [Logger::openLogFile]. *)
Definition openLogFile (s : Logger) (w : World) : bool * Logger * World :=
  if is_open (m_logFile s) then (true, s, w)
  else
    let '(f1, w1) :=
      Ofstream.open (m_logFile s) w (m_logFilePath s) Fs.app_out in
    let '(f2, w2) :=
      if negb (is_open f1)
      then Ofstream.open f1 w1 (m_logFilePath s) Fs.out
      else (f1, w1) in
    if negb (is_open f2) then (false, with_logFile f2 s, w2)
    else
      let f3 := Ofstream.seekp_end f2 in
      (true,
       with_currentFileSize (wrap_size_t (Ofstream.tellp f3 w2))
         (with_logFile f3 s),
       w2).

(** [Logger::closeLogFile]. *)
Definition closeLogFile (s : Logger) : Logger :=
  if is_open (m_logFile s)
  then with_logFile (Ofstream.close (m_logFile s)) s
  else s.

(** The loop [for (const auto &message : m_messageBuffer) m_logFile << message;]
    shared by [flushBuffer] and [checkRotation]. *)
Fixpoint write_messages (f : ofstream) (w : World) (messages : list string)
  : ofstream * World :=
  match messages with
  | [] => (f, w)
  | message :: rest =>
      let '(f', w') := Ofstream.insert f w message in
      write_messages f' w' rest
  end.

(** [Logger::flushBuffer]. *)
Definition flushBuffer (s : Logger) (w : World) : Logger * World :=
  let '(f, w') := write_messages (m_logFile s) w (m_messageBuffer s) in
  (with_messageBuffer [] (with_logFile (Ofstream.flush f) s), w').

(** [Logger::flush]; the lock it takes and releases is the subject of the
    part on threads. *)
Definition flush (s : Logger) (w : World) : Logger * World :=
  flushBuffer s w.

(** [Logger::createLogDirectory]. *)
Definition createLogDirectory (w : World) (filePath : string) : bool * World :=
  let dir := Fs.parent_path filePath in
  if String.eqb dir "" then (true, w)
  else if negb (Fs.exists_ w dir)
  then
    match Fs.create_directories w dir with
    | Some (created, w') => (created, w')
    | None =>
        (false,
         write_cerr ("Error creating directory: " +:+
                     "filesystem error: cannot create directories" +:+
                     String "010" "") w)
    end
  else (true, w).

(** [Logger::rotateLogFile].  It touches the file system only. *)
Definition rotateLogFile (s : Logger) (w : World) : World :=
  let backupFileName := m_logFilePath s +:+ ".bak" in
  let w1 :=
    if Fs.exists_ w backupFileName
    then
      match Fs.remove w backupFileName with
      | (Some msg, w') =>
          write_cerr ("Failed to remove backup file: " +:+ msg +:+
                      String "010" "") w'
      | (None, w') => w'
      end
    else w in
  match Fs.rename w1 (m_logFilePath s) backupFileName with
  | (Some msg, w2) =>
      write_cerr ("Failed to rename log file: " +:+ msg +:+ String "010" "") w2
  | (None, w2) => w2
  end.

(** The test of [Logger::checkRotation]:
    [m_currentFileSize + messageSize > m_maxFileSize], on [size_t]. *)
Definition shouldRotate (currentSize messageSize maxSize : Z) : bool :=
  wrap_size_t (currentSize + messageSize) >? maxSize.

(** The body of the [if] of [Logger::checkRotation]. *)
Definition rotate (s : Logger) (w : World) : Logger * World :=
  let '(f, w1) := write_messages (m_logFile s) w (m_messageBuffer s) in
  let s1 := with_messageBuffer [] (with_logFile f s) in
  let s2 := closeLogFile s1 in
  let w2 := rotateLogFile s2 w1 in
  let '(_, s3, w3) := openLogFile s2 w2 in
  (with_currentFileSize 0 s3, w3).

(** [Logger::checkRotation]. *)
Definition checkRotation (s : Logger) (w : World) (messageSize : Z)
  : Logger * World :=
  if shouldRotate (m_currentFileSize s) messageSize (m_maxFileSize s)
  then rotate s w
  else (s, w).

Definition newline : string := String "010" "".

(** [Logger::init]. *)
Definition init (s : Logger) (w : World) (now : wall_clock)
    (logFilePath : string) (level : LogLevel) (consoleOutput : bool)
    (maxFileSize : Z) : bool * Logger * World :=
  if m_initialized s then (true, s, w)
  else
    let s1 := with_config logFilePath level consoleOutput maxFileSize s in
    let '(dir_ok, w1) := createLogDirectory w (m_logFilePath s1) in
    if negb dir_ok
    then
      (false, s1,
       write_cerr ("Failed to create log directory for: " +:+
                   m_logFilePath s1 +:+ newline) w1)
    else
      let '(file_ok, s2, w2) := openLogFile s1 w1 in
      if negb file_ok
      then
        (false, s2,
         write_cerr ("Failed to initialize logger file: " +:+
                     m_logFilePath s2 +:+ newline) w2)
      else
        let s3 :=
          with_currentFileSize
            (wrap_size_t (Ofstream.tellp (m_logFile s2) w2)) s2 in
        let timestampBuffer := getTimestamp 64 now in
        let initMessage :=
          "[" +:+ timestampBuffer +:+ "] [INFO] Logger initialized" +:+
          newline in
        let '(f, w3) := Ofstream.insert (m_logFile s3) w2 initMessage in
        let s4 :=
          with_currentFileSize
            (wrap_size_t (m_currentFileSize s3 + size initMessage))
            (with_logFile f s3) in
        let s5 := with_logFile (Ofstream.flush (m_logFile s4)) s4 in
        (true, with_initialized true s5, w3).

(** The readings one call of [Logger::log] takes from the clocks: the wall
    clock for the timestamp, and [steady_clock::now()] after the line has
    been queued. *)
Record clocks : Type := mk_clocks {
  wall : wall_clock;
  steady_now : Z
}.

(** The line [Logger::log] composes in [logStream]. *)
Definition logEntry_of (timestampBuffer : string) (level : LogLevel)
    (buffer : string) : string :=
  "[" +:+ timestampBuffer +:+ "] [" +:+ logLevelToString level +:+ "] " +:+
  buffer +:+ newline.

(** The guard that opens [log] and each of [error], [warning], [info] and
    [debug]: [!m_initialized || level > m_currentLevel]. *)
Definition filtered (s : Logger) (level : LogLevel) : bool :=
  negb (m_initialized s) || LogLevel_gt level (m_currentLevel s).

(** [Logger::log], from [lockMutex()] to [unlockMutex()].
    [timestampBuffer] and [buffer] are the two local buffers, filled before
    the lock is taken. *)
Definition log_locked (s : Logger) (w : World) (steady : Z)
    (level : LogLevel) (timestampBuffer buffer : string) : Logger * World :=
  let logEntry := logEntry_of timestampBuffer level buffer in
  let w1 := if m_consoleOutput s then write_cout logEntry w else w in
  let '(file_ok, s2, w2) := openLogFile s w1 in
  if negb file_ok then (s2, w2)
  else
    let '(s3, w3) := checkRotation s2 w2 (size logEntry) in
    let s4 := with_messageBuffer (m_messageBuffer s3 ++ [logEntry]) s3 in
    let logEntry := moved_from logEntry in
    let s5 :=
      with_currentFileSize
        (wrap_size_t (m_currentFileSize s4 + size logEntry)) s4 in
    let elapsedMs := to_milliseconds (steady - m_lastFlushTime s5) in
    if (Z.of_nat (length (m_messageBuffer s5)) >=? LOG_BUFFER_CAPACITY)
       || (elapsedMs >=? FLUSH_INTERVAL_MS)
    then flushBuffer s5 w3
    else (s5, w3).

(** [Logger::log(level, format, ...)].  [expansion] is the text the format
    and its arguments expand to. *)
Definition log (s : Logger) (w : World) (clk : clocks) (level : LogLevel)
    (expansion : string) : Logger * World :=
  if filtered s level then (s, w)
  else
    let timestampBuffer := getTimestamp TIME_STAMP_BUFFER (wall clk) in
    let buffer := CStr.snprintf m_bufferSize expansion in
    log_locked s w (steady_now clk) level timestampBuffer buffer.

(** The common shape of [error], [warning], [info] and [debug]: the guard,
    the rendering into the local buffer, then [log(level, "%s", buffer)]. *)
Definition log_at (level : LogLevel) (s : Logger) (w : World) (clk : clocks)
    (expansion : string) : Logger * World :=
  if filtered s level then (s, w)
  else
    let buffer := CStr.snprintf m_bufferSize expansion in
    log s w clk level (CStr.c_str buffer).

(** [Logger::error]. *)
Definition error := log_at ERR.
(** [Logger::warning]. *)
Definition warning := log_at WARNING.
(** [Logger::info]. *)
Definition info := log_at INFO.
(** [Logger::debug]. *)
Definition debug := log_at DEBUG.

(** [Logger::setLevel]. *)
Definition setLevel (s : Logger) (level : LogLevel) : Logger :=
  mk_Logger level (m_logFilePath s) (m_maxFileSize s) (m_initialized s)
    (m_consoleOutput s) (m_logFile s) (m_messageBuffer s)
    (m_currentFileSize s) (m_lastFlushTime s).

(** [Logger::setConsoleOutput]. *)
Definition setConsoleOutput (s : Logger) (enable : bool) : Logger :=
  mk_Logger (m_currentLevel s) (m_logFilePath s) (m_maxFileSize s)
    (m_initialized s) enable (m_logFile s) (m_messageBuffer s)
    (m_currentFileSize s) (m_lastFlushTime s).

(** [Logger::~Logger]. *)
Definition Logger_delete (s : Logger) (w : World) (now : wall_clock)
  : Logger * World :=
  if m_initialized s
  then
    let timestampBuffer := getTimestamp TIME_STAMP_BUFFER now in
    let '(s1, w1) := flushBuffer s w in
    let shutdownMsg :=
      "[" +:+ timestampBuffer +:+ "] [INFO] Logger shutdown" +:+ newline in
    let '(f, w2) := Ofstream.insert (m_logFile s1) w1 shutdownMsg in
    let s2 := with_logFile (Ofstream.flush f) s1 in
    (closeLogFile s2, w2)
  else (s, w).

(** The bytes of a sequence of lines, in order. *)
Definition concat_lines (lines : list string) : string :=
  foldr String.append "" lines.

(** Appending each of [lines] in turn to the file at [p]. *)
Definition append_all (p : string) (w : World) (lines : list string) : World :=
  foldl (λ w' line, Fs.append w' p line) w lines.

(* ===================================================================== *)
(** * Several threads calling [Logger::log] *)
(* ===================================================================== *)

(** The program points of [Logger::log], one for each statement that reads or
    writes what the threads share or what the platform provides. *)
Inductive pc : Type :=
  | AtGuard           (** [if (!m_initialized || level > m_currentLevel)] *)
  | Filtered          (** the [return] of the guard *)
  | AtTimestamp       (** [getTimestamp(timestampBuffer, ...)] *)
  | AtRender          (** [vsnprintf(buffer, m_bufferSize, format, args)] *)
  | AtLock            (** [lockMutex()] *)
  | AtCompose         (** [logStream << ...; logEntry = logStream.str()] *)
  | AtConsole         (** [if (m_consoleOutput) std::cout << logEntry] *)
  | AtOpen            (** [if (!openLogFile())] *)
  | AtCheckRotation   (** [checkRotation(logEntry.size())] *)
  | AtPush            (** [m_messageBuffer.push_back(std::move(logEntry))] *)
  | AtCount           (** [m_currentFileSize += logEntry.size()] *)
  | AtFlushCheck      (** the clock reading and the conditional [flushBuffer()] *)
  | AtUnlock          (** [unlockMutex()] *)
  | Returned.         (** after [unlockMutex()] *)

#[global] Instance pc_eq_dec : EqDecision pc.
Proof. solve_decision. Defined.

(** One call of [log] in progress: its arguments, its local variables and
    its program point. *)
Record thread : Type := mk_thread {
  t_level : LogLevel;
  t_expansion : string;
  t_timestampBuffer : string;
  t_buffer : string;
  t_logEntry : string;
  t_pc : pc
}.

(** A call of [log] about to start. *)
Definition call (level : LogLevel) (expansion : string) : thread :=
  mk_thread level expansion "" "" "" AtGuard.

Definition at_pc (next : pc) (t : thread) : thread :=
  mk_thread (t_level t) (t_expansion t) (t_timestampBuffer t) (t_buffer t)
    (t_logEntry t) next.
Definition with_timestampBuffer (ts : string) (t : thread) : thread :=
  mk_thread (t_level t) (t_expansion t) ts (t_buffer t) (t_logEntry t)
    (t_pc t).
Definition with_buffer (b : string) (t : thread) : thread :=
  mk_thread (t_level t) (t_expansion t) (t_timestampBuffer t) b
    (t_logEntry t) (t_pc t).
Definition with_logEntry (e : string) (t : thread) : thread :=
  mk_thread (t_level t) (t_expansion t) (t_timestampBuffer t) (t_buffer t)
    e (t_pc t).

(** The logger with its mutex, the environment, the threads and the current
    readings of the two clocks.  [m_logMutex] names the thread that holds the
    lock. *)
Record config : Type := mk_config {
  logger : Logger;
  world : World;
  m_logMutex : option nat;
  threads : list thread;
  wall_now : wall_clock;
  steady : Z
}.

Definition set_thread (i : nat) (t : thread) (c : config) : config :=
  mk_config (logger c) (world c) (m_logMutex c) (<[i := t]> (threads c))
    (wall_now c) (steady c).
Definition set_shared (s : Logger) (w : World) (c : config) : config :=
  mk_config s w (m_logMutex c) (threads c) (wall_now c) (steady c).
Definition set_mutex (m : option nat) (c : config) : config :=
  mk_config (logger c) (world c) m (threads c) (wall_now c) (steady c).

(** What the scheduler and the platform can do next: let the clocks advance
    to new readings, or let thread [i] execute the statement it stands at. *)
Inductive action : Type :=
  | Tick (now : wall_clock) (steady_now : Z)
  | Run (i : nat).

(** Thread [i], whose state is [t], executes the statement it stands at.
    [None]: the thread cannot move (it waits for the lock or has returned). *)
Definition step_thread (i : nat) (t : thread) (c : config) : option config :=
  match t_pc t with
  | AtGuard =>
      Some (set_thread i
              (at_pc (if filtered (logger c) (t_level t) then Filtered
                      else AtTimestamp) t) c)
  | AtTimestamp =>
      Some (set_thread i
              (at_pc AtRender
                 (with_timestampBuffer
                    (getTimestamp TIME_STAMP_BUFFER (wall_now c)) t)) c)
  | AtRender =>
      Some (set_thread i
              (at_pc AtLock
                 (with_buffer (CStr.snprintf m_bufferSize (t_expansion t)) t))
              c)
  | AtLock =>
      match m_logMutex c with
      | None => Some (set_thread i (at_pc AtCompose t) (set_mutex (Some i) c))
      | Some _ => None
      end
  | AtCompose =>
      Some (set_thread i
              (at_pc AtConsole
                 (with_logEntry
                    (logEntry_of (t_timestampBuffer t) (t_level t)
                       (t_buffer t)) t)) c)
  | AtConsole =>
      let w := if m_consoleOutput (logger c)
               then write_cout (t_logEntry t) (world c) else world c in
      Some (set_thread i (at_pc AtOpen t) (set_shared (logger c) w c))
  | AtOpen =>
      let '(file_ok, s, w) := openLogFile (logger c) (world c) in
      Some (set_thread i
              (at_pc (if negb file_ok then AtUnlock else AtCheckRotation) t)
              (set_shared s w c))
  | AtCheckRotation =>
      let '(s, w) :=
        checkRotation (logger c) (world c) (size (t_logEntry t)) in
      Some (set_thread i (at_pc AtPush t) (set_shared s w c))
  | AtPush =>
      let s :=
        with_messageBuffer (m_messageBuffer (logger c) ++ [t_logEntry t])
          (logger c) in
      Some (set_thread i
              (at_pc AtCount (with_logEntry (moved_from (t_logEntry t)) t))
              (set_shared s (world c) c))
  | AtCount =>
      let s :=
        with_currentFileSize
          (wrap_size_t (m_currentFileSize (logger c) + size (t_logEntry t)))
          (logger c) in
      Some (set_thread i (at_pc AtFlushCheck t) (set_shared s (world c) c))
  | AtFlushCheck =>
      let elapsedMs :=
        to_milliseconds (steady c - m_lastFlushTime (logger c)) in
      let '(s, w) :=
        if (Z.of_nat (length (m_messageBuffer (logger c)))
              >=? LOG_BUFFER_CAPACITY)
           || (elapsedMs >=? FLUSH_INTERVAL_MS)
        then flushBuffer (logger c) (world c)
        else (logger c, world c) in
      Some (set_thread i (at_pc AtUnlock t) (set_shared s w c))
  | AtUnlock =>
      Some (set_thread i (at_pc Returned t) (set_mutex None c))
  | Filtered | Returned => None
  end.

Definition step (a : action) (c : config) : option config :=
  match a with
  | Tick now st =>
      Some (mk_config (logger c) (world c) (m_logMutex c) (threads c) now st)
  | Run i =>
      match threads c !! i with
      | Some t => step_thread i t c
      | None => None
      end
  end.

(** A schedule, executed from left to right. *)
Fixpoint run (sch : list action) (c : config) : option config :=
  match sch with
  | [] => Some c
  | a :: rest =>
      match step a c with
      | Some c' => run rest c'
      | None => None
      end
  end.

(** Nobody holds the lock and every thread is about to call [log]. *)
Definition initial (c : config) : Prop :=
  m_logMutex c = None ∧ ∀ i t, threads c !! i = Some t → t_pc t = AtGuard.

(** The statements between [lockMutex()] and [unlockMutex()]. *)
Definition in_progress (p : pc) : bool :=
  match p with
  | AtCompose | AtConsole | AtOpen | AtCheckRotation | AtPush | AtCount
  | AtFlushCheck => true
  | _ => false
  end.

(** The program points at which the thread holds the lock. *)
Definition holds_lock (p : pc) : bool :=
  in_progress p || bool_decide (p = AtUnlock).

(** The statements that the claim on threads puts under the lock. *)
Definition claimed_under_lock (p : pc) : bool :=
  bool_decide (p = AtTimestamp) || in_progress p.

(** A set [P] of statements is serialized by the lock when, in every
    configuration that a schedule reaches, a thread standing at a statement
    of [P] holds the lock. *)
Definition serialized_by_lock (P : pc → bool) : Prop :=
  ∀ c0 sch c i t,
    initial c0 → run sch c0 = Some c →
    threads c !! i = Some t → P (t_pc t) = true →
    m_logMutex c = Some i.

(** One completed passage through the locked part of [log]: the thread, the
    content of its two buffers, and the reading of the steady clock it
    compared with the last flush time. *)
Record passage : Type := mk_passage {
  p_thread : nat;
  p_level : LogLevel;
  p_timestamp : string;
  p_buffer : string;
  p_steady : Z
}.

(** The passages executed one after the other, each as one uninterrupted
    run of the locked part of [log]. *)
Definition replay (ps : list passage) (s : Logger) (w : World)
  : Logger * World :=
  foldl (λ sw p, log_locked sw.1 sw.2 (p_steady p) (p_level p)
                   (p_timestamp p) (p_buffer p))
    (s, w) ps.

(** The line of a passage. *)
Definition passage_line (p : passage) : string :=
  logEntry_of (p_timestamp p) (p_level p) (p_buffer p).

(** The log as a whole: the content of the log file followed by the lines
    still pending. *)
Definition log_text (s : Logger) (w : World) : string :=
  Fs.content w (m_logFilePath s) +:+ concat_lines (m_messageBuffer s).

(** What is left of the locked part of [log] from each of its statements
    on, as a function of the shared state: [entry] is the local [logEntry],
    [st] the reading of the steady clock that the last statement will take. *)
Definition from_flush_check (s : Logger) (w : World) (st : Z)
  : Logger * World :=
  let elapsedMs := to_milliseconds (st - m_lastFlushTime s) in
  if (Z.of_nat (length (m_messageBuffer s)) >=? LOG_BUFFER_CAPACITY)
     || (elapsedMs >=? FLUSH_INTERVAL_MS)
  then flushBuffer s w
  else (s, w).

Definition from_count (s : Logger) (w : World) (st : Z) (entry : string)
  : Logger * World :=
  from_flush_check
    (with_currentFileSize (wrap_size_t (m_currentFileSize s + size entry)) s)
    w st.

Definition from_push (s : Logger) (w : World) (st : Z) (entry : string)
  : Logger * World :=
  from_count (with_messageBuffer (m_messageBuffer s ++ [entry]) s) w st
    (moved_from entry).

Definition from_rotation (s : Logger) (w : World) (st : Z) (entry : string)
  : Logger * World :=
  let '(s3, w3) := checkRotation s w (size entry) in
  from_push s3 w3 st entry.

Definition from_open (s : Logger) (w : World) (st : Z) (entry : string)
  : Logger * World :=
  let '(file_ok, s2, w2) := openLogFile s w in
  if negb file_ok then (s2, w2) else from_rotation s2 w2 st entry.

Definition from_console (s : Logger) (w : World) (st : Z) (entry : string)
  : Logger * World :=
  from_open s (if m_consoleOutput s then write_cout entry w else w) st entry.

Definition remaining (t : thread) (st : Z) (s : Logger) (w : World)
  : Logger * World :=
  match t_pc t with
  | AtCompose =>
      from_console s w st
        (logEntry_of (t_timestampBuffer t) (t_level t) (t_buffer t))
  | AtConsole => from_console s w st (t_logEntry t)
  | AtOpen => from_open s w st (t_logEntry t)
  | AtCheckRotation => from_rotation s w st (t_logEntry t)
  | AtPush => from_push s w st (t_logEntry t)
  | AtCount => from_count s w st (t_logEntry t)
  | AtFlushCheck => from_flush_check s w st
  | _ => (s, w)
  end.

(** What a thread past the guard has in its buffers. *)
Definition stamped (t : thread) : Prop :=
  ∃ now, t_timestampBuffer t = getTimestamp TIME_STAMP_BUFFER now.
Definition rendered (t : thread) : Prop :=
  t_buffer t = CStr.snprintf m_bufferSize (t_expansion t).

(** The passage of thread [i] with buffers as in [t] is among [ps]. *)
Definition recorded (ps : list passage) (i : nat) (t : thread) : Prop :=
  ∃ p, p ∈ ps ∧ p_thread p = i ∧ p_level p = t_level t
       ∧ p_timestamp p = t_timestampBuffer t ∧ p_buffer p = t_buffer t.

(** What holds of thread [i] in state [t], by program point, when the lock
    is [m], the shared state [s] and [w], and [ps] the passages completed
    since the start [s0], [w0]. *)
Definition thread_inv (s0 : Logger) (w0 : World) (m : option nat)
    (s : Logger) (w : World) (ps : list passage) (i : nat) (t : thread)
  : Prop :=
  match t_pc t with
  | AtGuard => True
  | Filtered => filtered s0 (t_level t) = true
  | AtTimestamp => filtered s0 (t_level t) = false
  | AtRender => filtered s0 (t_level t) = false ∧ stamped t
  | AtLock => filtered s0 (t_level t) = false ∧ stamped t ∧ rendered t
  | AtUnlock =>
      filtered s0 (t_level t) = false ∧ stamped t ∧ rendered t
      ∧ m = Some i ∧ recorded ps i t ∧ (s, w) = replay ps s0 w0
  | Returned =>
      filtered s0 (t_level t) = false ∧ stamped t ∧ rendered t
      ∧ recorded ps i t
  | _ =>
      filtered s0 (t_level t) = false ∧ stamped t ∧ rendered t
      ∧ m = Some i
      ∧ ∀ st, remaining t st s w =
              log_locked (replay ps s0 w0).1 (replay ps s0 w0).2 st
                (t_level t) (t_timestampBuffer t) (t_buffer t)
  end.

(** The program points at which the passage of the thread is complete. *)
Definition completed (p : pc) : bool :=
  bool_decide (p = AtUnlock) || bool_decide (p = Returned).

(** The invariant of every run from [c0]: [ps] are the passages completed so
    far, in the order of their completion. *)
Record inv (c0 c : config) (ps : list passage) : Prop := mk_inv {
  inv_threads :
    ∀ i t, threads c !! i = Some t →
      thread_inv (logger c0) (world c0) (m_logMutex c) (logger c) (world c)
        ps i t;
  inv_length : length (threads c) = length (threads c0);
  inv_args :
    ∀ i t, threads c !! i = Some t →
      ∃ t0, threads c0 !! i = Some t0 ∧ t_level t = t_level t0
            ∧ t_expansion t = t_expansion t0;
  inv_free :
    m_logMutex c = None → (logger c, world c) = replay ps (logger c0) (world c0);
  inv_owner :
    ∀ i, m_logMutex c = Some i →
      ∃ t, threads c !! i = Some t ∧ holds_lock (t_pc t) = true;
  inv_filter :
    ∀ level, filtered (logger c) level = filtered (logger c0) level;
  inv_nodup : NoDup (p_thread <$> ps);
  inv_passages :
    ∀ p, p ∈ ps →
      ∃ t, threads c !! p_thread p = Some t ∧ completed (t_pc t) = true
}.

(** The logger is in a state in which a line of at most 298 bytes is queued
    without rotation and written without failure. *)
Definition steady_state (s : Logger) : Prop :=
  is_open (m_logFile s) = true ∧ good (m_logFile s) = true
  ∧ target (m_logFile s) = m_logFilePath s
  ∧ 0 ≤ m_currentFileSize s
  ∧ m_currentFileSize s + 298 ≤ m_maxFileSize s
  ∧ m_maxFileSize s < 2 ^ SIZE_WIDTH.

(** The members that only [init], [setLevel] and [setConsoleOutput] assign,
    and the last flush time, are the same in [s'] as in [s]. *)
Definition same_settings (s s' : Logger) : Prop :=
  m_currentLevel s' = m_currentLevel s
  ∧ m_logFilePath s' = m_logFilePath s
  ∧ m_maxFileSize s' = m_maxFileSize s
  ∧ m_initialized s' = m_initialized s
  ∧ m_consoleOutput s' = m_consoleOutput s
  ∧ m_lastFlushTime s' = m_lastFlushTime s.

(** The marker lines of [init] and of the destructor. *)
Definition init_marker (now : wall_clock) : string :=
  "[" +:+ getTimestamp 64 now +:+ "] [INFO] Logger initialized" +:+ newline.
Definition shutdown_marker (now : wall_clock) : string :=
  "[" +:+ getTimestamp TIME_STAMP_BUFFER now +:+ "] [INFO] Logger shutdown"
  +:+ newline.

(** The broken-down time is a calendar time with a year of four digits:
    the ranges [localtime_r] produces for the years 0 to 9999. *)
Definition calendar_tm (t : tm) : Prop :=
  -1900 ≤ tm_year t ≤ 8099 ∧ 0 ≤ tm_mon t ≤ 11 ∧ 1 ≤ tm_mday t ≤ 31
  ∧ 0 ≤ tm_hour t ≤ 23 ∧ 0 ≤ tm_min t ≤ 59 ∧ 0 ≤ tm_sec t ≤ 60.

(** [P] holds of every number from 0 up to, not including, [bound]. *)
Definition all_below (bound : nat) (P : Z → bool) : bool :=
  forallb P (Z.of_nat <$> seq 0 bound).

(** ["%0<width>d"] prints [n] on exactly [width] characters, none of them
    NUL. *)
Definition prints_on (width : nat) (n : Z) : bool :=
  Nat.eqb (String.length (CStr.fmt_d0 width n)) width
  && String.eqb (CStr.c_str (CStr.fmt_d0 width n)) (CStr.fmt_d0 width n).




(** The thread has left [log]. *)
Definition finished (p : pc) : bool :=
  bool_decide (p = Filtered) || bool_decide (p = Returned).

(* ===================================================================== *)
(** * A session of one caller *)
(* ===================================================================== *)

(** A call of [log] as its caller writes it, with the readings the call
    takes from the clocks. *)
Record request : Type := mk_request {
  r_clocks : clocks;
  r_level : LogLevel;
  r_expansion : string
}.

(** The calls of one caller, one after the other. *)
Definition log_each (rs : list request) (s : Logger) (w : World)
  : Logger * World :=
  foldl (λ sw r, log sw.1 sw.2 (r_clocks r) (r_level r) (r_expansion r))
    (s, w) rs.

(** The line of a call: none if the guard rejects it. *)
Definition request_line (s : Logger) (r : request) : string :=
  if filtered s (r_level r) then ""
  else logEntry_of (getTimestamp TIME_STAMP_BUFFER (wall (r_clocks r)))
         (r_level r) (CStr.snprintf m_bufferSize (r_expansion r)).

(** The calls, then the destructor at the end of the program. *)
Definition session (rs : list request) (s : Logger) (w : World)
    (now : wall_clock) : Logger * World :=
  Logger_delete (log_each rs s w).1 (log_each rs s w).2 now.

(* ===================================================================== *)
(** * The unbuffered logger of src/logger.cpp *)
(* ===================================================================== *)

(** The [logger.cpp] under [src/] is the logger without the pending
    sequence: each call of [log] opens the file, writes its line and closes
    the file again.  It uses the data members below only. *)
Module Legacy.

Record Logger : Type := mk_Logger {
  m_currentLevel : LogLevel;
  m_logFilePath : string;
  m_maxFileSize : Z;
  m_initialized : bool;
  m_consoleOutput : bool
}.

(** [Logger::Logger()]. *)
Definition Logger_new : Logger :=
  {| m_currentLevel := INFO;
     m_logFilePath := "";
     m_maxFileSize := MAX_FILE_SIZE;
     m_initialized := false;
     m_consoleOutput := true |}.

(** [Logger::getTimestamp]: the time of day only.  The local time is that
    of the [_WIN32] branch, [localtime_s(&now_tm, &now_time_t)]; the other
    branch passes the two arguments of [localtime_r] in the wrong order. *)
Definition getTimestamp (bufferSize : Z) (now : wall_clock) : string :=
  let now_tm := local_time now in
  CStr.snprintf bufferSize
    (CStr.fmt_d0 2 (tm_hour now_tm) +:+ ":" +:+
     CStr.fmt_d0 2 (tm_min now_tm) +:+ ":" +:+
     CStr.fmt_d0 2 (tm_sec now_tm) +:+ "." +:+
     CStr.fmt_d0 3 (now_ms (since_epoch_ns now))).

(** [Logger::rotateLogFile]. *)
Definition rotateLogFile (s : Logger) (w : World) : World :=
  let backupFileName := m_logFilePath s +:+ ".bak" in
  let w1 :=
    if Fs.exists_ w backupFileName
    then
      match Fs.remove w backupFileName with
      | (Some msg, w') =>
          write_cerr ("Failed to remove backup file: " +:+ msg +:+ newline) w'
      | (None, w') => w'
      end
    else w in
  match Fs.rename w1 (m_logFilePath s) backupFileName with
  | (Some msg, w2) =>
      write_cerr ("Failed to rename log file: " +:+ msg +:+ newline) w2
  | (None, w2) => w2
  end.

(** [Logger::init]. *)
Definition init (s : Logger) (w : World) (now : wall_clock)
    (logFilePath : string) (level : LogLevel) (consoleOutput : bool)
    (maxFileSize : Z) : bool * Logger * World :=
  if m_initialized s then (true, s, w)
  else
    let s1 := mk_Logger level logFilePath maxFileSize (m_initialized s)
                consoleOutput in
    let '(dir_ok, w1) := createLogDirectory w (m_logFilePath s1) in
    if negb dir_ok
    then
      (false, s1,
       write_cerr ("Failed to create log directory for: " +:+
                   m_logFilePath s1 +:+ newline) w1)
    else
      let '(logFile, w2) :=
        Ofstream.open Ofstream.closed w1 (m_logFilePath s1) Fs.app_out in
      if negb (is_open logFile)
      then
        (false, s1,
         write_cerr ("Failed to initialize logger file: " +:+
                     m_logFilePath s1 +:+ newline) w2)
      else
        let timestampBuffer := getTimestamp 64 now in
        let '(_, w3) :=
          Ofstream.insert logFile w2
            ("[" +:+ timestampBuffer +:+ "] [INFO] Logger initialized" +:+
             newline) in
        (true,
         mk_Logger (m_currentLevel s1) (m_logFilePath s1) (m_maxFileSize s1)
           true (m_consoleOutput s1),
         w3).

Definition filtered (s : Logger) (level : LogLevel) : bool :=
  negb (m_initialized s) || LogLevel_gt level (m_currentLevel s).

(** The line [log] composes with [snprintf] in
    [char logEntry[m_bufferSize + 64]]. *)
Definition logEntry_of (timestampBuffer : string) (level : LogLevel)
    (buffer : string) : string :=
  CStr.snprintf (m_bufferSize + 64)
    ("[" +:+ timestampBuffer +:+ "] [" +:+ logLevelToString level +:+ "] "
     +:+ buffer +:+ newline).

(** [Logger::log], which changes no data member. *)
Definition log (s : Logger) (w : World) (now : wall_clock) (level : LogLevel)
    (expansion : string) : World :=
  if filtered s level then w
  else
    let timestampBuffer := getTimestamp TIME_STAMP_BUFFER now in
    let buffer := CStr.snprintf m_bufferSize expansion in
    let logEntry := logEntry_of timestampBuffer level buffer in
    let w1 := if m_consoleOutput s then write_cout logEntry w else w in
    let '(f1, w2) :=
      Ofstream.open Ofstream.closed w1 (m_logFilePath s) Fs.app_out in
    let '(f2, w3) :=
      if negb (is_open f1)
      then Ofstream.open f1 w2 (m_logFilePath s) Fs.out
      else (f1, w2) in
    if negb (is_open f2) then w3
    else
      let f3 := Ofstream.seekp_end f2 in
      if wrap_size_t (wrap_size_t (Ofstream.tellp f3 w3) + size logEntry)
           >? m_maxFileSize s
      then
        let f4 := Ofstream.close f3 in
        let w4 := rotateLogFile s w3 in
        let '(f5, w5) := Ofstream.open f4 w4 (m_logFilePath s) Fs.out in
        if negb (is_open f5) then w5
        else (Ofstream.insert f5 w5 logEntry).2
      else (Ofstream.insert f3 w3 logEntry).2.

End Legacy.

(* ===================================================================== *)
(** * Sample runs *)
(* ===================================================================== *)

Definition world0 : World := mk_World ∅ ∅ ∅ "" "".

Definition sample_wall : wall_clock :=
  mk_wall_clock 1645314312123456789 (mk_tm 122 1 19 23 45 12).

Definition sample_init : bool * Logger * World :=
  init (Logger_new 0) world0 sample_wall "./logs/app.log" INFO true MAX_FILE_SIZE.


(** The unbuffered logger after its [init] on the empty world, with a
    maximum file size of 100 bytes. *)
Definition legacy_init : bool * Legacy.Logger * World :=
  Legacy.init Legacy.Logger_new world0 sample_wall "./logs/app.log" INFO
    false 100.
Definition legacy_logger : Legacy.Logger := legacy_init.1.2.
Definition legacy_world : World := legacy_init.2.

(** The same world in which nothing may be done at the backup path. *)
Definition legacy_world_nobak : World :=
  mk_World (files legacy_world) (dirs legacy_world) {["./logs/app.log.bak"]}
    (cout legacy_world) (cerr legacy_world).

(** A line of [n] letters ['x']. *)
Definition long_text (n : nat) : string := CStr.repeat_char "x" n.

Definition sample_logger : Logger := sample_init.1.2.
Definition sample_world : World := sample_init.2.

Definition sample_clocks : clocks := mk_clocks sample_wall 5000000.

(** The sample world with a backup left over from an earlier run. *)
Definition sample_world_bak : World :=
  with_files (<["./logs/app.log.bak" := "stale" +:+ newline]>
                (files sample_world)) sample_world.

(** The sample logger with two lines pending. *)
Definition sample_logger_pending : Logger :=
  with_messageBuffer ["first" +:+ newline; "second" +:+ newline]
    sample_logger.

(** Two threads about to log on the sample logger. *)
Definition sample_config : config :=
  mk_config sample_logger sample_world None
    [call INFO "from thread 0"; call INFO "from thread 1"]
    sample_wall 5000000.

Definition later_wall : wall_clock :=
  mk_wall_clock 1645314313000789000 (mk_tm 122 1 19 23 45 13).

(** Thread 0 passes the guard and reads the clock; the clock advances;
    thread 1 passes the guard, reads the clock, renders, takes the lock and
    runs to the end; then thread 0 renders, takes the lock and runs to the
    end. *)
Definition overtaking : list action :=
  [Run 0; Run 0; Tick later_wall 6000000] ++
  repeat (Run 1) 12 ++ repeat (Run 0) 10.

(** A logger initialized with a maximum file size of 100 bytes, and two
    threads that log 60 and 120 letters on it, one after the other. *)
Definition small_init : bool * Logger * World :=
  init (Logger_new 0) world0 sample_wall "./logs/app.log" INFO true 100.

Definition small_config : config :=
  mk_config small_init.1.2 small_init.2 None
    [call INFO (long_text 60); call INFO (long_text 120)]
    sample_wall 5000000.

Definition one_by_one : list action :=
  repeat (Run 0) 12 ++ repeat (Run 1) 12.

Definition rotated_twice : config :=
  default small_config (run one_by_one small_config).

(** Where the schedule [overtaking] leaves the two threads. *)
Definition overtaken : config :=
  default sample_config (run overtaking sample_config).

(** Thread 0 runs alone up to the statement after [lockMutex()]. *)
Definition entering : list action := [Run 0; Run 0; Run 0; Run 0]%nat.

(** Where the schedule [entering] leaves the two threads. *)
Definition entered : config :=
  default sample_config (run entering sample_config).

(** Exposing the fields of an updated logger or world. *)
Ltac logger_simpl :=
  unfold with_logFile, with_messageBuffer, with_currentFileSize,
    with_initialized, with_config, with_files, with_dirs, write_cout,
    write_cerr;
  cbn [m_currentLevel m_logFilePath m_maxFileSize m_initialized
       m_consoleOutput m_logFile m_messageBuffer m_currentFileSize
       m_lastFlushTime files dirs readonly cout cerr is_open target good
       fst snd].

(** The sample logger after [closeLogFile], with two lines pending. *)
Definition sample_logger_closed : Logger :=
  closeLogFile sample_logger_pending.

(** The sample world in which nothing may be done at the backup path. *)
Definition sample_world_nobak : World :=
  mk_World (files sample_world) (dirs sample_world) {["./logs/app.log.bak"]}
    (cout sample_world) (cerr sample_world).

(** The sample world in which nothing may be done at the log path. *)
Definition sample_world_nolog : World :=
  mk_World (files sample_world) (dirs sample_world) {["./logs/app.log"]}
    (cout sample_world) (cerr sample_world).

(* ===================================================================== *)
(** * Facts about strings *)
(* ===================================================================== *)

Section StringFacts.

Lemma str_app_cons (c : ascii) (a b : string) :
  String c a +:+ b = String c (a +:+ b).
Proof. reflexivity. Qed.

Lemma str_app_nil_l (s : string) : "" +:+ s = s.
Proof. reflexivity. Qed.

Lemma str_app_nil_r (s : string) : s +:+ "" = s.
Proof.
  induction s as [|c s IH]; [reflexivity|]. by rewrite str_app_cons, IH.
Qed.

Lemma str_app_assoc (a b c : string) : (a +:+ b) +:+ c = a +:+ (b +:+ c).
Proof.
  induction a as [|x a IH]; [reflexivity|]. by rewrite !str_app_cons, IH.
Qed.

Lemma str_length_app (a b : string) :
  String.length (a +:+ b) = (String.length a + String.length b)%nat.
Proof.
  induction a as [|x a IH]; [reflexivity|]. rewrite str_app_cons. cbn.
  by rewrite IH.
Qed.

Lemma eqb_empty (s : string) : String.eqb s "" = true ↔ s = "".
Proof. apply String.eqb_eq. Qed.

Lemma take_length (n : nat) (s : string) :
  (String.length (CStr.take n s) ≤ n)%nat.
Proof.
  revert s. induction n as [|n IH]; intros [|c s]; cbn; try lia.
  specialize (IH s). lia.
Qed.

Lemma c_str_length (s : string) :
  (String.length (CStr.c_str s) ≤ String.length s)%nat.
Proof.
  induction s as [|c s IH]; cbn [CStr.c_str String.length]; [lia|].
  destruct (Ascii.eqb c Ascii.zero); cbn [String.length]; lia.
Qed.

Lemma c_str_idemp (s : string) : CStr.c_str (CStr.c_str s) = CStr.c_str s.
Proof.
  induction s as [|c s IH]; [reflexivity|]. cbn [CStr.c_str].
  destruct (Ascii.eqb c Ascii.zero) eqn:E; [reflexivity|].
  cbn [CStr.c_str]. by rewrite E, IH.
Qed.

Lemma take_take (n : nat) (s : string) :
  CStr.take n (CStr.take n s) = CStr.take n s.
Proof.
  revert s. induction n as [|n IH]; intros [|c s]; cbn; try reflexivity.
  by rewrite IH.
Qed.

Lemma take_all (n : nat) (s : string) :
  (String.length s ≤ n)%nat → CStr.take n s = s.
Proof.
  revert s. induction n as [|n IH]; intros [|c s]; cbn; try reflexivity;
    try lia.
  intros H. rewrite IH; [reflexivity|lia].
Qed.

(** Cutting first and reading the C string after is reading the C string
    first and cutting after. *)
Lemma c_str_take (n : nat) (s : string) :
  CStr.c_str (CStr.take n s) = CStr.take n (CStr.c_str s).
Proof.
  revert s. induction n as [|n IH]; intros [|c s]; try reflexivity.
  cbn [CStr.take CStr.c_str].
  destruct (Ascii.eqb c Ascii.zero); cbn [CStr.take]; [reflexivity|].
  by rewrite IH.
Qed.

Lemma snprintf_length (sz : Z) (e : string) :
  1 ≤ sz → Z.of_nat (String.length (CStr.snprintf sz e)) ≤ sz - 1.
Proof.
  intros H. unfold CStr.snprintf.
  pose proof (c_str_length (CStr.take (Z.to_nat (sz - 1)) e)).
  pose proof (take_length (Z.to_nat (sz - 1)) e). lia.
Qed.

Lemma snprintf_idemp (sz : Z) (e : string) :
  CStr.snprintf sz (CStr.c_str (CStr.snprintf sz e)) = CStr.snprintf sz e.
Proof.
  unfold CStr.snprintf.
  rewrite !c_str_take, !c_str_idemp, take_take. reflexivity.
Qed.

Lemma bak_neq (p : string) : p +:+ ".bak" ≠ p.
Proof.
  intros H. apply (f_equal String.length) in H.
  rewrite str_length_app in H. cbn in H. lia.
Qed.

End StringFacts.

(* ===================================================================== *)
(** * The buffered writer: draining *)
(* ===================================================================== *)

Section Drain.

Lemma concat_lines_cons (x : string) (l : list string) :
  concat_lines (x :: l) = x +:+ concat_lines l.
Proof. reflexivity. Qed.

Lemma concat_lines_app (a b : list string) :
  concat_lines (a ++ b) = concat_lines a +:+ concat_lines b.
Proof.
  induction a as [|x a IH]; [reflexivity|].
  rewrite <- app_comm_cons, !concat_lines_cons, IH, str_app_assoc. done.
Qed.

Lemma content_append_eq (w : World) (p data : string) :
  Fs.content (Fs.append w p data) p = Fs.content w p +:+ data.
Proof. unfold Fs.content, Fs.append. cbn. by rewrite lookup_insert_eq. Qed.

Lemma files_append_ne (w : World) (p q data : string) :
  q ≠ p → files (Fs.append w p data) !! q = files w !! q.
Proof. intros H. unfold Fs.append. cbn. by rewrite lookup_insert_ne. Qed.

Lemma content_append_all (p : string) (lines : list string) (w : World) :
  Fs.content (append_all p w lines) p =
  Fs.content w p +:+ concat_lines lines.
Proof.
  revert w. induction lines as [|x l IH]; intros w.
  - cbn. by rewrite str_app_nil_r.
  - cbn [append_all foldl]. fold (append_all p (Fs.append w p x) l).
    rewrite IH, content_append_eq, concat_lines_cons, str_app_assoc.
    reflexivity.
Qed.

Lemma files_append_all_ne (p q : string) (lines : list string) (w : World) :
  q ≠ p → files (append_all p w lines) !! q = files w !! q.
Proof.
  intros H. revert w. induction lines as [|x l IH]; intros w; [done|].
  cbn [append_all foldl]. fold (append_all p (Fs.append w p x) l).
  by rewrite IH, files_append_ne.
Qed.

Lemma append_all_frame (p : string) (lines : list string) (w : World) :
  dirs (append_all p w lines) = dirs w
  ∧ readonly (append_all p w lines) = readonly w
  ∧ cout (append_all p w lines) = cout w
  ∧ cerr (append_all p w lines) = cerr w.
Proof.
  revert w. induction lines as [|x l IH]; intros w; [done|].
  cbn [append_all foldl]. fold (append_all p (Fs.append w p x) l).
  destruct (IH (Fs.append w p x)) as (-> & -> & -> & ->). done.
Qed.

(** On an open stream in good state the loop appends every message. *)
Lemma write_messages_open (f : ofstream) (w : World) (l : list string) :
  is_open f = true → good f = true →
  write_messages f w l = (f, append_all (target f) w l).
Proof.
  intros Ho Hg. revert w. induction l as [|x l IH]; intros w; [done|].
  cbn [write_messages]. unfold Ofstream.insert. rewrite Hg, Ho. cbn.
  apply IH.
Qed.

Lemma logger_eta (s : Logger) :
  mk_Logger (m_currentLevel s) (m_logFilePath s) (m_maxFileSize s)
    (m_initialized s) (m_consoleOutput s) (m_logFile s) (m_messageBuffer s)
    (m_currentFileSize s) (m_lastFlushTime s) = s.
Proof. by destruct s. Qed.

End Drain.

(** C1.  [flushBuffer] (the drain of the buffered writer) appends every
    pending line to the file of the open stream, in the order in which the
    lines were queued, touches no other file and nothing else of the logger,
    and leaves the pending sequence empty; with an empty pending sequence it
    changes nothing at all, whatever the state of the stream. *)
Theorem flushBuffer_drains_in_order (s : Logger) (w : World) :
  (is_open (m_logFile s) = true → good (m_logFile s) = true →
   let p := target (m_logFile s) in
   let s' := (flushBuffer s w).1 in
   let w' := (flushBuffer s w).2 in
   Fs.content w' p = Fs.content w p +:+ concat_lines (m_messageBuffer s)
   ∧ (∀ q, q ≠ p → files w' !! q = files w !! q)
   ∧ s' = with_messageBuffer [] s
   ∧ m_messageBuffer s' = [])
  ∧ (m_messageBuffer s = [] → flushBuffer s w = (s, w)).
Proof.
  split.
  - intros Ho Hg. unfold flushBuffer.
    rewrite write_messages_open by done. cbn.
    split; [apply content_append_all|].
    split; [intros q Hq; by apply files_append_all_ne|].
    split; [|done].
    unfold with_messageBuffer, with_logFile, Ofstream.flush. cbn. done.
  - intros He. unfold flushBuffer. rewrite He. cbn.
    unfold with_messageBuffer, with_logFile, Ofstream.flush. cbn.
    rewrite <- He. by rewrite logger_eta.
Qed.

(** A run of C1: two pending lines reach the file of the sample logger. *)
Lemma flushBuffer_drains_in_order_witness :
  let s := with_messageBuffer ["first" +:+ newline; "second" +:+ newline]
             sample_logger in
  Fs.content (flushBuffer s sample_world).2 (target (m_logFile s)) =
    Fs.content sample_world (target (m_logFile s)) +:+
    concat_lines (m_messageBuffer s)
  ∧ (∀ q, q ≠ target (m_logFile s) →
       files (flushBuffer s sample_world).2 !! q = files sample_world !! q)
  ∧ (flushBuffer s sample_world).1 = with_messageBuffer [] s
  ∧ m_messageBuffer (flushBuffer s sample_world).1 = [].
Proof.
  intros s.
  apply (proj1 (flushBuffer_drains_in_order s sample_world));
    vm_compute; reflexivity.
Defined.

(* ===================================================================== *)
(** * What the operations leave alone *)
(* ===================================================================== *)

Section Frames.

Lemma write_messages_cout (f : ofstream) (w : World) (l : list string) :
  cout (write_messages f w l).2 = cout w.
Proof.
  revert f w. induction l as [|x l IH]; intros f w; [done|].
  cbn [write_messages]. unfold Ofstream.insert.
  destruct (good f), (is_open f), (String.eqb x ""); cbn [negb];
    rewrite IH; done.
Qed.

Lemma openLogFile_cout (s : Logger) (w : World) :
  cout (openLogFile s w).2 = cout w.
Proof.
  unfold openLogFile, Ofstream.open, Fs.open.
  destruct (is_open (m_logFile s)) eqn:Ho; [done|]. cbn.
  destruct (Fs.writable w (m_logFilePath s) &&
            negb (Fs.is_dir w (m_logFilePath s))) eqn:E; cbn.
  - done.
  - rewrite Ho. cbn. rewrite E. cbn. rewrite Ho. done.
Qed.

Lemma rotateLogFile_cout (s : Logger) (w : World) :
  cout (rotateLogFile s w) = cout w.
Proof.
  unfold rotateLogFile, Fs.rename, Fs.remove.
  repeat (case_match; simplify_eq; cbn); done.
Qed.

Lemma flushBuffer_cout (s : Logger) (w : World) :
  cout (flushBuffer s w).2 = cout w.
Proof.
  unfold flushBuffer.
  pose proof (write_messages_cout (m_logFile s) w (m_messageBuffer s)) as H.
  destruct (write_messages _ _ _). exact H.
Qed.

Lemma rotate_cout (s : Logger) (w : World) : cout (rotate s w).2 = cout w.
Proof.
  unfold rotate.
  pose proof (write_messages_cout (m_logFile s) w (m_messageBuffer s)) as H.
  destruct (write_messages _ _ _) as [f w1]. cbn in H.
  match goal with
  | |- context [openLogFile ?a ?b] =>
      pose proof (openLogFile_cout a b) as H2;
      destruct (openLogFile a b) as [[ok s3] w3]
  end.
  cbn in *. by rewrite H2, rotateLogFile_cout.
Qed.

Lemma checkRotation_cout (s : Logger) (w : World) (n : Z) :
  cout (checkRotation s w n).2 = cout w.
Proof.
  unfold checkRotation. case_match; [apply rotate_cout|done].
Qed.

(** Whatever happens to the file, an admitted line is mirrored on the
    console exactly when the mirror is switched on. *)
Lemma log_locked_cout (s : Logger) (w : World) (steady : Z)
    (level : LogLevel) (ts buffer : string) :
  cout (log_locked s w steady level ts buffer).2 =
  if m_consoleOutput s then cout w +:+ logEntry_of ts level buffer
  else cout w.
Proof.
  unfold log_locked.
  set (line := logEntry_of ts level buffer).
  set (w1 := if m_consoleOutput s then write_cout line w else w).
  assert (cout w1 =
          if m_consoleOutput s then cout w +:+ line else cout w) as <-.
  { subst w1. by destruct (m_consoleOutput s). }
  pose proof (openLogFile_cout s w1) as H1.
  destruct (openLogFile s w1) as [[ok s2] w2]. cbn in H1.
  destruct ok; cbn [negb]; [|done].
  pose proof (checkRotation_cout s2 w2 (size line)) as H2.
  destruct (checkRotation s2 w2 (size line)) as [s3 w3]. cbn in H2.
  case_match; [rewrite flushBuffer_cout|]; cbn; congruence.
Qed.

(** The four convenience operations render into a buffer of the same size
    as [log] does, so the second rendering changes nothing. *)
Lemma log_at_eq (level : LogLevel) (s : Logger) (w : World) (clk : clocks)
    (e : string) :
  log_at level s w clk e = log s w clk level e.
Proof.
  unfold log_at, log. destruct (filtered s level); [done|].
  by rewrite snprintf_idemp.
Qed.

End Frames.

(* ===================================================================== *)
(** * The level filter *)
(* ===================================================================== *)

(** C2.  On an initialized logger a message passes the guard of [log]
    exactly when its level is at most the threshold in the order
    ERR = 0 < WARNING = 1 < INFO = 2 < DEBUG = 3: a message above the
    threshold changes nothing, a message at or below it goes through the
    emitting part of [log] and, with the console mirror on, reaches the
    console as one composed line; the same holds for the four convenience
    operations.  With threshold INFO this admits ERR, WARNING and INFO and
    rejects DEBUG. *)
Theorem level_filter_admits (s : Logger) (w : World) (clk : clocks)
    (requested : LogLevel) (e : string) :
  m_initialized s = true →
  let threshold := m_currentLevel s in
  let ts := getTimestamp TIME_STAMP_BUFFER (wall clk) in
  let buffer := CStr.snprintf m_bufferSize e in
  (filtered s requested = false ↔
   LogLevel_value requested ≤ LogLevel_value threshold)
  ∧ (LogLevel_value requested ≤ LogLevel_value threshold →
     log s w clk requested e =
       log_locked s w (steady_now clk) requested ts buffer
     ∧ log_at requested s w clk e = log s w clk requested e
     ∧ (m_consoleOutput s = true →
        cout (log s w clk requested e).2 =
        cout w +:+ logEntry_of ts requested buffer))
  ∧ (¬ LogLevel_value requested ≤ LogLevel_value threshold →
     log s w clk requested e = (s, w)
     ∧ log_at requested s w clk e = (s, w))
  ∧ (threshold = INFO →
     filtered s ERR = false ∧ filtered s WARNING = false
     ∧ filtered s INFO = false ∧ filtered s DEBUG = true).
Proof.
  intros Hi threshold ts buffer.
  assert (filtered s requested = false ↔
          LogLevel_value requested ≤ LogLevel_value threshold) as Hf.
  { unfold filtered, LogLevel_gt. rewrite Hi. cbn [negb orb].
    subst threshold. rewrite Z.gtb_ltb, Z.ltb_ge. done. }
  split; [exact Hf|]. split; [|split].
  - intros Hle. apply Hf in Hle.
    assert (log s w clk requested e =
            log_locked s w (steady_now clk) requested ts buffer) as Hlog.
    { unfold log. by rewrite Hle. }
    split; [exact Hlog|]. split; [apply log_at_eq|].
    intros Hc. rewrite Hlog, log_locked_cout, Hc. done.
  - intros Hgt.
    assert (filtered s requested = true) as Ht.
    { destruct (filtered s requested); [done|]. exfalso. by apply Hgt, Hf. }
    rewrite log_at_eq. unfold log. rewrite Ht. done.
  - intros Ht. unfold filtered, LogLevel_gt. subst threshold.
    rewrite Hi, Ht. done.
Qed.

(** A run of C2: the sample logger, threshold INFO, asked to log at DEBUG. *)
Lemma level_filter_admits_witness :
  (filtered sample_logger DEBUG = false ↔
   LogLevel_value DEBUG ≤ LogLevel_value (m_currentLevel sample_logger))
  ∧ log sample_logger sample_world sample_clocks DEBUG "hello" =
    (sample_logger, sample_world).
Proof.
  pose proof (level_filter_admits sample_logger sample_world sample_clocks
                DEBUG "hello" eq_refl) as (H1 & _ & H3 & _).
  split; [exact H1|]. apply H3. vm_compute. by intros H.
Defined.

(* ===================================================================== *)
(** * Rotation *)
(* ===================================================================== *)

(** C3.  As long as the sum of the running size and the size of the incoming
    line is representable in [size_t], [checkRotation] rotates exactly when
    that sum is strictly greater than the maximum file size; a line that
    brings the sum to exactly the maximum leaves logger and files as they
    are. *)
Theorem rotation_trigger_strict (s : Logger) (w : World) (messageSize : Z) :
  0 ≤ m_currentFileSize s → 0 ≤ messageSize →
  m_currentFileSize s + messageSize < 2 ^ SIZE_WIDTH →
  (shouldRotate (m_currentFileSize s) messageSize (m_maxFileSize s) = true ↔
   m_currentFileSize s + messageSize > m_maxFileSize s)
  ∧ (m_currentFileSize s + messageSize > m_maxFileSize s →
     checkRotation s w messageSize = rotate s w)
  ∧ (m_currentFileSize s + messageSize ≤ m_maxFileSize s →
     checkRotation s w messageSize = (s, w))
  ∧ (m_currentFileSize s + messageSize = m_maxFileSize s →
     checkRotation s w messageSize = (s, w)).
Proof.
  intros Hc Hm Hlt.
  assert (shouldRotate (m_currentFileSize s) messageSize (m_maxFileSize s) =
          (m_currentFileSize s + messageSize >? m_maxFileSize s)) as Hs.
  { unfold shouldRotate, wrap_size_t. rewrite Z.mod_small by lia. done. }
  unfold checkRotation. rewrite Hs.
  split; [rewrite Z.gtb_ltb, Z.ltb_lt; lia|].
  split; [|split].
  - intros H. apply Z.gt_lt, Z.ltb_lt in H. rewrite Z.gtb_ltb, H. done.
  - intros H. apply Z.ltb_ge in H. rewrite Z.gtb_ltb, H. done.
  - intros H. assert (m_currentFileSize s + messageSize ≤ m_maxFileSize s)
      as H' by lia.
    apply Z.ltb_ge in H'. rewrite Z.gtb_ltb, H'. done.
Qed.

(** A run of C3: a line of 32716 bytes fills the budget of the sample logger
    (52 bytes used of 32768) exactly and does not rotate. *)
Lemma rotation_trigger_strict_witness :
  (shouldRotate (m_currentFileSize sample_logger) 32716
     (m_maxFileSize sample_logger) = true ↔
   m_currentFileSize sample_logger + 32716 > m_maxFileSize sample_logger)
  ∧ checkRotation sample_logger sample_world 32716 =
    (sample_logger, sample_world).
Proof.
  assert (0 ≤ m_currentFileSize sample_logger) as H1 by (vm_compute; discriminate).
  assert (0 ≤ 32716) as H2 by lia.
  assert (m_currentFileSize sample_logger + 32716 < 2 ^ SIZE_WIDTH) as H3
    by (vm_compute; reflexivity).
  pose proof (rotation_trigger_strict sample_logger sample_world 32716
                H1 H2 H3) as (Ha & _ & _ & Hd).
  split; [exact Ha|]. apply Hd. vm_compute. reflexivity.
Defined.

Section Rotation.

Lemma files_append_all_eq (p : string) (l : list string) (w : World) :
  is_Some (files w !! p) →
  files (append_all p w l) !! p =
  Some (Fs.content w p +:+ concat_lines l).
Proof.
  revert w. induction l as [|x l IH]; intros w [c Hc].
  - cbn. unfold Fs.content. rewrite Hc. cbn. by rewrite str_app_nil_r.
  - cbn [append_all foldl]. fold (append_all p (Fs.append w p x) l).
    rewrite IH.
    + by rewrite content_append_eq, concat_lines_cons, str_app_assoc.
    + unfold Fs.append. cbn. rewrite lookup_insert_eq. eauto.
Qed.

Variables (s : Logger) (w : World).
Let p := m_logFilePath s.
Let b := m_logFilePath s +:+ ".bak".

Hypothesis Hfile : is_Some (files w !! p).
Hypothesis Hwp : Fs.writable w p = true.
Hypothesis Hwb : Fs.writable w b = true.
Hypothesis Hdp : Fs.is_dir w p = false.
Hypothesis Hdb : Fs.is_dir w b = false.

(** With nothing in the way, [rotateLogFile] leaves the content of the log
    file under the backup name and no file under the name of the log; a
    backup that was there before is gone. *)
Lemma rotateLogFile_ok :
  let w' := rotateLogFile s w in
  files w' = <[b := Fs.content w p]> (delete p (delete b (files w)))
  ∧ readonly w' = readonly w
  ∧ Fs.is_dir w' p = false
  ∧ cout w' = cout w
  ∧ cerr w' = cerr w.
Proof.
  destruct Hfile as [data Hdata].
  assert (Fs.content w p = data) as Hcont.
  { unfold Fs.content. by rewrite Hdata. }
  assert (b ≠ p) as Hne by apply bak_neq.
  unfold rotateLogFile. fold b. fold p.
  destruct (Fs.exists_ w b) eqn:Hex.
  - unfold Fs.remove. rewrite Hwb. cbn.
    unfold Fs.rename. cbn. rewrite lookup_delete_ne, Hdata by done.
    unfold Fs.writable, Fs.is_dir in *. cbn.
    rewrite Hwp, Hwb. cbn.
    rewrite bool_decide_eq_false_2
      by (rewrite elem_of_difference, elem_of_singleton; tauto).
    cbn.
    rewrite Hcont. repeat split; try done.
    apply bool_decide_eq_false_2. apply bool_decide_eq_false_1 in Hdp.
    rewrite elem_of_difference. tauto.
  - unfold Fs.rename. rewrite Hdata, Hwp, Hwb, Hdb. cbn.
    apply orb_false_elim in Hex as [Hnf _].
    apply bool_decide_eq_false_1, not_elem_of_dom_1 in Hnf.
    rewrite (delete_id (files w) b) by done.
    rewrite Hcont. done.
Qed.

End Rotation.

Section RotationSteps.

Lemma openLogFile_open (s : Logger) (w : World) :
  is_open (m_logFile s) = true → openLogFile s w = (true, s, w).
Proof. intros H. unfold openLogFile. by rewrite H. Qed.

(** Reopening a closed stream on a path that can be written. *)
Lemma openLogFile_closed_ok (s : Logger) (w : World) :
  is_open (m_logFile s) = false →
  Fs.writable w (m_logFilePath s) = true →
  Fs.is_dir w (m_logFilePath s) = false →
  openLogFile s w =
  (true,
   with_currentFileSize
     (wrap_size_t (size (Fs.content w (m_logFilePath s))))
     (with_logFile (mk_ofstream true (m_logFilePath s) true) s),
   with_files
     (<[m_logFilePath s := Fs.content w (m_logFilePath s)]> (files w)) w).
Proof.
  intros Ho Hw Hd. unfold openLogFile, Ofstream.open, Fs.open.
  rewrite Ho, Hw, Hd. cbn.
  unfold Ofstream.tellp, Ofstream.seekp_end, Fs.content, size. cbn.
  by rewrite lookup_insert_eq.
Qed.

Lemma writable_append_all (p q : string) (l : list string) (w : World) :
  Fs.writable (append_all p w l) q = Fs.writable w q.
Proof.
  unfold Fs.writable.
  by destruct (append_all_frame p l w) as (_ & -> & _).
Qed.

Lemma is_dir_append_all (p q : string) (l : list string) (w : World) :
  Fs.is_dir (append_all p w l) q = Fs.is_dir w q.
Proof.
  unfold Fs.is_dir.
  by destruct (append_all_frame p l w) as (-> & _).
Qed.

(** The whole of a rotation that nothing hinders. *)
Lemma rotate_ok (s : Logger) (w : World) :
  let p := m_logFilePath s in
  let b := m_logFilePath s +:+ ".bak" in
  is_open (m_logFile s) = true →
  good (m_logFile s) = true →
  target (m_logFile s) = p →
  Fs.is_file w p = true →
  Fs.writable w p = true →
  Fs.writable w b = true →
  Fs.is_dir w p = false →
  Fs.is_dir w b = false →
  ∃ fs ds,
    rotate s w =
      (mk_Logger (m_currentLevel s) p (m_maxFileSize s) (m_initialized s)
         (m_consoleOutput s) (mk_ofstream true p true) [] 0
         (m_lastFlushTime s),
       mk_World fs ds (readonly w) (cout w) (cerr w))
    ∧ fs !! b = Some (Fs.content w p +:+ concat_lines (m_messageBuffer s))
    ∧ fs !! p = Some ""
    ∧ (∀ q, q ≠ p → q ≠ b → fs !! q = files w !! q).
Proof.
  intros p b Ho Hg Ht Hf Hwp Hwb Hdp Hdb.
  assert (b ≠ p) as Hne by apply bak_neq.
  apply bool_decide_eq_true_1, elem_of_dom in Hf.
  unfold rotate. rewrite write_messages_open by done. rewrite Ht.
  set (l := m_messageBuffer s).
  set (w1 := append_all p w l).
  unfold closeLogFile.
  change (m_logFile (with_messageBuffer [] (with_logFile (m_logFile s) s)))
    with (m_logFile s).
  rewrite Ho. unfold Ofstream.close. rewrite Ho, Ht, Hg.
  set (s2 := with_logFile (mk_ofstream false p true) _).
  assert (is_Some (files w1 !! p)) as Hf1.
  { subst w1. rewrite files_append_all_eq by done. eauto. }
  destruct (rotateLogFile_ok s2 w1) as (Hfs & Hro & Hdir & Hcout & Hcerr);
    try (subst w1; subst s2; cbn [m_logFilePath]; fold p; fold b;
         rewrite ?writable_append_all, ?is_dir_append_all; done).
  change (m_logFilePath s2) with p in *.
  fold b in Hfs.
  set (w2 := rotateLogFile s2 w1) in *.
  assert (Fs.writable w2 p = true) as Hw2.
  { unfold Fs.writable in *. rewrite Hro. subst w1.
    by destruct (append_all_frame p l w) as (_ & -> & _). }
  rewrite openLogFile_closed_ok by done.
  change (m_logFilePath s2) with p.
  assert (Fs.content w2 p = "") as Hc2.
  { unfold Fs.content. rewrite Hfs.
    by rewrite lookup_insert_ne, lookup_delete_eq. }
  rewrite Hc2.
  destruct (append_all_frame p l w) as (Hd1 & Hr1 & Ho1 & He1).
  eexists (<[p := ""]> (files w2)), (dirs w2).
  split; [|split; [|split]].
  - unfold with_files, with_currentFileSize, with_logFile. subst s2. cbn.
    rewrite Hro, Hcout, Hcerr. subst w1. by rewrite Hr1, Ho1, He1.
  - rewrite lookup_insert_ne by done. rewrite Hfs, lookup_insert_eq.
    f_equal. subst w1. apply content_append_all.
  - by rewrite lookup_insert_eq.
  - intros q Hq1 Hq2.
    rewrite lookup_insert_ne by done. rewrite Hfs.
    rewrite lookup_insert_ne, !lookup_delete_ne by done.
    subst w1. by apply files_append_all_ne.
Qed.

End RotationSteps.

(** C4.  A rotation on a logger whose stream is open on the log file, with
    nothing in the file system in its way: every pending line is written
    behind the content of the log file, in queue order, and the whole is found
    under the backup name, whatever backup was there before; the log path
    holds a fresh empty file on which the stream is open again; the pending
    sequence is empty, the running size is zero, no other file is touched and
    no diagnostic is printed.  For the call of [log] that triggers the
    rotation this means: all earlier lines are in the backup in their order,
    and the new generation (file and pending sequence) holds the new line and
    nothing else. *)
Theorem rotate_keeps_every_line (s : Logger) (w : World) :
  let p := m_logFilePath s in
  let b := m_logFilePath s +:+ ".bak" in
  is_open (m_logFile s) = true →
  good (m_logFile s) = true →
  target (m_logFile s) = p →
  Fs.is_file w p = true →
  Fs.writable w p = true →
  Fs.writable w b = true →
  Fs.is_dir w p = false →
  Fs.is_dir w b = false →
  (let s' := (rotate s w).1 in
   let w' := (rotate s w).2 in
   files w' !! b =
     Some (Fs.content w p +:+ concat_lines (m_messageBuffer s))
   ∧ files w' !! p = Some ""
   ∧ (∀ q, q ≠ p → q ≠ b → files w' !! q = files w !! q)
   ∧ m_messageBuffer s' = []
   ∧ m_currentFileSize s' = 0
   ∧ m_logFile s' = mk_ofstream true p true
   ∧ cerr w' = cerr w)
  ∧ (∀ steady level ts buffer,
       let line := logEntry_of ts level buffer in
       let s' := (log_locked s w steady level ts buffer).1 in
       let w' := (log_locked s w steady level ts buffer).2 in
       shouldRotate (m_currentFileSize s) (size line) (m_maxFileSize s)
         = true →
       files w' !! b =
         Some (Fs.content w p +:+ concat_lines (m_messageBuffer s))
       ∧ Fs.content w' p +:+ concat_lines (m_messageBuffer s') = line).
Proof.
  intros p b Ho Hg Ht Hf Hwp Hwb Hdp Hdb.
  assert (b ≠ p) as Hne by apply bak_neq.
  split.
  - destruct (rotate_ok s w) as (fs & ds & -> & Hb & Hp & Hq); try done.
  - intros steady level ts buffer line.
    unfold log_locked. fold line.
    set (w1 := if m_consoleOutput s then write_cout line w else w).
    assert (files w1 = files w ∧ dirs w1 = dirs w ∧ readonly w1 = readonly w)
      as (Hf1 & Hd1 & Hr1).
    { subst w1. by destruct (m_consoleOutput s). }
    rewrite openLogFile_open by done. cbn [negb].
    intros Hrot. unfold checkRotation. rewrite Hrot.
    destruct (rotate_ok s w1) as (fs & ds & -> & Hb & Hp & Hq); try done.
    { unfold Fs.is_file. by rewrite Hf1. }
    { unfold Fs.writable. by rewrite Hr1. }
    { unfold Fs.writable. by rewrite Hr1. }
    { unfold Fs.is_dir. by rewrite Hd1. }
    { unfold Fs.is_dir. by rewrite Hd1. }
    fold p b in Hb, Hp.
    assert (Fs.content w1 p = Fs.content w p) as Hc1.
    { unfold Fs.content. by rewrite Hf1. }
    rewrite Hc1 in Hb.
    logger_simpl. cbn [app]. fold p.
    match goal with
    | |- context [if ?c then _ else _] => destruct c
    end.
    + unfold flushBuffer. logger_simpl.
      rewrite write_messages_open by done. logger_simpl.
      split.
      * cbn [append_all foldl]. rewrite files_append_ne by done. exact Hb.
      * rewrite content_append_all. unfold Fs.content at 1.
        cbn [files]. rewrite Hp. cbn [default concat_lines foldr].
        by rewrite str_app_nil_l, !str_app_nil_r.
    + logger_simpl. split; [exact Hb|].
      unfold Fs.content. cbn [files]. rewrite Hp.
      cbn [default concat_lines foldr].
      by rewrite str_app_nil_l, str_app_nil_r.
Qed.

(** A run of C4: the sample logger with two lines pending rotates over a
    stale backup. *)
Lemma rotate_keeps_every_line_witness :
  let s := sample_logger_pending in
  let w := sample_world_bak in
  files (rotate s w).2 !! "./logs/app.log.bak" =
    Some (Fs.content w "./logs/app.log" +:+
          concat_lines ["first" +:+ newline; "second" +:+ newline])
  ∧ files (rotate s w).2 !! "./logs/app.log" = Some ""
  ∧ m_messageBuffer (rotate s w).1 = []
  ∧ m_currentFileSize (rotate s w).1 = 0.
Proof.
  intros s w.
  destruct (rotate_keeps_every_line s w) as [(H1 & H2 & _ & H4 & H5 & _) _];
    try (vm_compute; reflexivity).
  exact (conj H1 (conj H2 (conj H4 H5))).
Defined.

(* ===================================================================== *)
(** * Initialization *)
(* ===================================================================== *)

Section Init.

Lemma init_true_initialized (s s1 : Logger) (w w1 : World)
    (now : wall_clock) (path : string) (level : LogLevel) (console : bool)
    (maxFileSize : Z) :
  init s w now path level console maxFileSize = (true, s1, w1) →
  m_initialized s1 = true.
Proof.
  unfold init. destruct (m_initialized s) eqn:Hi.
  - intros [= <- <-]. exact Hi.
  - destruct (createLogDirectory _ _) as [dir_ok w'].
    destruct dir_ok; cbn [negb]; [|discriminate].
    destruct (openLogFile _ _) as [[file_ok s2] w2].
    destruct file_ok; cbn [negb]; [|discriminate].
    destruct (Ofstream.insert _ _ _) as [f w3].
    intros [= <- <-]. reflexivity.
Qed.

(** [openLogFile] changes the stream and the running size only. *)
Lemma openLogFile_config (s : Logger) (w : World) :
  let s' := (openLogFile s w).1.2 in
  m_currentLevel s' = m_currentLevel s
  ∧ m_logFilePath s' = m_logFilePath s
  ∧ m_maxFileSize s' = m_maxFileSize s
  ∧ m_initialized s' = m_initialized s
  ∧ m_consoleOutput s' = m_consoleOutput s
  ∧ m_messageBuffer s' = m_messageBuffer s
  ∧ m_lastFlushTime s' = m_lastFlushTime s.
Proof.
  unfold openLogFile.
  destruct (is_open (m_logFile s)); [done|].
  destruct (Ofstream.open _ _ _ _) as [f1 w1].
  destruct (if negb (is_open f1) then _ else _) as [f2 w2].
  destruct (is_open f2); done.
Qed.

(** A first call that succeeds leaves its arguments in the logger. *)
Lemma init_first_config (s s1 : Logger) (w w1 : World)
    (now : wall_clock) (path : string) (level : LogLevel) (console : bool)
    (maxFileSize : Z) :
  m_initialized s = false →
  init s w now path level console maxFileSize = (true, s1, w1) →
  m_currentLevel s1 = level ∧ m_consoleOutput s1 = console
  ∧ m_logFilePath s1 = path ∧ m_maxFileSize s1 = maxFileSize.
Proof.
  intros Hi. unfold init. rewrite Hi.
  destruct (createLogDirectory _ _) as [dir_ok w'].
  destruct dir_ok; cbn [negb]; [|discriminate].
  match goal with
  | |- context [openLogFile ?a ?b] =>
      pose proof (openLogFile_config a b) as Hc;
      destruct (openLogFile a b) as [[file_ok s2] w2]
  end.
  destruct file_ok; cbn [negb]; [|discriminate].
  destruct (Ofstream.insert _ _ _) as [f w3].
  intros [= <- <-]. cbn in Hc. destruct Hc as (? & ? & ? & _ & ? & _).
  logger_simpl. done.
Qed.

End Init.

(** C8.  [init] on a logger that is already initialized returns true and
    leaves the logger and the environment exactly as they were, whatever its
    arguments.  So when a first call on a fresh logger has returned true, the
    level, the console flag, the file path and the maximum file size found
    after any second call are the arguments of the first. *)
Theorem init_twice_is_noop (s : Logger) (w : World) (now : wall_clock)
    (path : string) (level : LogLevel) (console : bool) (maxFileSize : Z) :
  (m_initialized s = true →
   init s w now path level console maxFileSize = (true, s, w))
  ∧ (∀ s0 w0 now0 path0 level0 console0 max0,
       m_initialized s0 = false →
       init s0 w0 now0 path0 level0 console0 max0 = (true, s, w) →
       let s' := (init s w now path level console maxFileSize).1.2 in
       init s w now path level console maxFileSize = (true, s, w)
       ∧ m_currentLevel s' = level0
       ∧ m_consoleOutput s' = console0
       ∧ m_logFilePath s' = path0
       ∧ m_maxFileSize s' = max0).
Proof.
  assert (m_initialized s = true →
          init s w now path level console maxFileSize = (true, s, w)) as H.
  { intros Hi. unfold init. by rewrite Hi. }
  split; [exact H|].
  intros s0 w0 now0 path0 level0 console0 max0 Hfresh Hfirst s'.
  pose proof (init_true_initialized _ _ _ _ _ _ _ _ _ Hfirst) as Hi.
  subst s'. rewrite (H Hi). split; [done|].
  exact (init_first_config _ _ _ _ _ _ _ _ _ Hfresh Hfirst).
Qed.

(** A run of C8: after the first [init] of the sample run, a second one
    with contradicting arguments. *)
Lemma init_twice_is_noop_witness :
  init sample_logger sample_world sample_wall "./other.log" DEBUG false 200 =
    (true, sample_logger, sample_world)
  ∧ m_currentLevel
      (init sample_logger sample_world sample_wall "./other.log" DEBUG false
         200).1.2 = INFO.
Proof.
  destruct (init_twice_is_noop sample_logger sample_world sample_wall
              "./other.log" DEBUG false 200) as [H1 H2].
  split.
  - apply H1. vm_compute. reflexivity.
  - refine (proj1 (proj2 (H2 (Logger_new 0) world0 sample_wall
                            "./logs/app.log" INFO true MAX_FILE_SIZE _ _))).
    + reflexivity.
    + vm_compute. reflexivity.
Defined.

(* ===================================================================== *)
(** * The rendering buffer *)
(* ===================================================================== *)

(** C10.  The message text that [log] and the four convenience operations
    put into a line is the content of a 256-byte buffer filled by
    [vsnprintf]: at most 255 bytes, namely the C string of the first 255
    bytes of the rendering.  Nothing distinguishes the call from one made
    with the rendering already cut: the result is the same logger and the
    same environment. *)
Theorem message_cut_at_255 (s : Logger) (w : World) (clk : clocks)
    (level : LogLevel) (e : string) :
  let buffer := CStr.snprintf m_bufferSize e in
  let ts := getTimestamp TIME_STAMP_BUFFER (wall clk) in
  (String.length buffer ≤ 255)%nat
  ∧ buffer = CStr.c_str (CStr.take 255 e)
  ∧ log s w clk level e =
      (if filtered s level then (s, w)
       else log_locked s w (steady_now clk) level ts buffer)
  ∧ log_at level s w clk e = log s w clk level e
  ∧ log s w clk level e = log s w clk level (CStr.take 255 e)
  ∧ error s w clk e = log s w clk ERR e
  ∧ warning s w clk e = log s w clk WARNING e
  ∧ info s w clk e = log s w clk INFO e
  ∧ debug s w clk e = log s w clk DEBUG e.
Proof.
  intros buffer ts.
  split.
  { pose proof (snprintf_length m_bufferSize e) as H.
    unfold m_bufferSize, BUFFER_SIZE in *. subst buffer.
    unfold m_bufferSize, BUFFER_SIZE. lia. }
  split; [reflexivity|].
  split; [reflexivity|].
  split; [apply log_at_eq|].
  split.
  { unfold log. destruct (filtered s level); [done|].
    unfold CStr.snprintf.
    change (Z.to_nat (m_bufferSize - 1)) with 255%nat.
    by rewrite take_take. }
  unfold error, warning, info, debug. by rewrite !log_at_eq.
Qed.

(* ===================================================================== *)
(** * Size accounting, flush time and timestamp on a sample run *)
(* ===================================================================== *)

Section Accounting.

Lemma flushBuffer_lastFlushTime (s : Logger) (w : World) :
  m_lastFlushTime (flushBuffer s w).1 = m_lastFlushTime s.
Proof.
  unfold flushBuffer. destruct (write_messages _ _ _). reflexivity.
Qed.

Lemma rotate_lastFlushTime (s : Logger) (w : World) :
  m_lastFlushTime (rotate s w).1 = m_lastFlushTime s.
Proof.
  unfold rotate. destruct (write_messages _ _ _) as [f w1].
  match goal with
  | |- context [openLogFile ?a ?b] =>
      pose proof (openLogFile_config a b) as Hc;
      destruct (openLogFile a b) as [[ok s3] w3]
  end.
  cbn in Hc. destruct Hc as (_ & _ & _ & _ & _ & _ & Hc).
  logger_simpl. rewrite Hc. unfold closeLogFile.
  by destruct (is_open _).
Qed.

Lemma log_locked_lastFlushTime (s : Logger) (w : World) (steady : Z)
    (level : LogLevel) (ts buffer : string) :
  m_lastFlushTime (log_locked s w steady level ts buffer).1 =
  m_lastFlushTime s.
Proof.
  unfold log_locked.
  match goal with
  | |- context [openLogFile ?a ?b] =>
      pose proof (openLogFile_config a b) as Hc;
      destruct (openLogFile a b) as [[ok s2] w2]
  end.
  cbn in Hc. destruct Hc as (_ & _ & _ & _ & _ & _ & Hc).
  destruct ok; cbn [negb]; [|done].
  unfold checkRotation.
  destruct (shouldRotate _ _ _).
  - pose proof (rotate_lastFlushTime s2 w2) as Hr.
    destruct (rotate s2 w2) as [s3 w3]. cbn in Hr.
    case_match; [rewrite flushBuffer_lastFlushTime|]; logger_simpl;
      congruence.
  - case_match; [rewrite flushBuffer_lastFlushTime|]; logger_simpl;
      congruence.
Qed.

Lemma log_lastFlushTime (s : Logger) (w : World) (clk : clocks)
    (level : LogLevel) (e : string) :
  m_lastFlushTime (log s w clk level e).1 = m_lastFlushTime s.
Proof.
  unfold log. destruct (filtered s level); [done|].
  apply log_locked_lastFlushTime.
Qed.

End Accounting.

(** C5 fails on the code.  From [push_back] on, the locked part of [log]
    continues as if the line had size 0: the size added to the running size
    is that of the local string after it has been moved into the pending
    sequence.  The sample logger has written its 52-byte initialization line;
    [info] then queues a line of 40 bytes.  The line is in the pending
    sequence, but the running size is still 52, while file and pending lines
    together hold 92 bytes: the counter is no upper bound of them. *)
Theorem enqueue_adds_nothing_to_counter :
  (∀ s w st entry,
     from_push s w st entry =
     from_flush_check
       (with_currentFileSize (wrap_size_t (m_currentFileSize s + 0))
          (with_messageBuffer (m_messageBuffer s ++ [entry]) s))
       w st)
  ∧ (let r := info sample_logger sample_world sample_clocks "hello" in
     let line := "[2022-02-19 23:45:12.456] [INFO ] hello" +:+ newline in
     m_messageBuffer r.1 = [line]
     ∧ size line = 40
     ∧ m_currentFileSize sample_logger = 52
     ∧ m_currentFileSize r.1 = 52
     ∧ size (Fs.content r.2 "./logs/app.log") +
       size (concat_lines (m_messageBuffer r.1)) = 92).
Proof. split; [reflexivity|]. vm_compute. repeat split. Qed.

(** C6 fails on the code.  No operation assigns [m_lastFlushTime] after the
    constructor: [flushBuffer] and [log] leave it as it is.  On the sample
    logger, constructed at steady time 0, a drain at any later time followed
    by a message at 5001 ms after construction drains again at once, since
    the elapsed time is still counted from the construction. *)
Theorem flush_time_is_never_recorded :
  (∀ s w, m_lastFlushTime (flushBuffer s w).1 = m_lastFlushTime s)
  ∧ (∀ s w clk level e,
       m_lastFlushTime (log s w clk level e).1 = m_lastFlushTime s)
  ∧ (let drained := flush sample_logger sample_world in
     let r := info drained.1 drained.2 (mk_clocks sample_wall 5001000000)
                "hello" in
     m_lastFlushTime drained.1 = 0
     ∧ m_messageBuffer r.1 = []
     ∧ Fs.content r.2 "./logs/app.log" =
         Fs.content sample_world "./logs/app.log" +:+
         "[2022-02-19 23:45:12.456] [INFO ] hello" +:+ newline).
Proof.
  split; [exact flushBuffer_lastFlushTime|].
  split; [exact log_lastFlushTime|].
  vm_compute. repeat split.
Qed.

(** C7 fails on the code.  At 123 456 789 ns past the second the millisecond
    component of the wall clock is 123, but the fraction [getTimestamp]
    prints is 456: the microseconds taken modulo 1000.  The rest of the line
    has the stated shape. *)
Theorem timestamp_fraction_is_microseconds :
  since_epoch_ns sample_wall = 1645314312123456789
  ∧ Z.rem (to_milliseconds (since_epoch_ns sample_wall)) 1000 = 123
  ∧ now_ms (since_epoch_ns sample_wall) = 456
  ∧ getTimestamp TIME_STAMP_BUFFER sample_wall = "2022-02-19 23:45:12.456"
  ∧ m_messageBuffer
      (info sample_logger sample_world sample_clocks "hello").1 =
    ["[2022-02-19 23:45:12.456] [INFO ] hello" +:+ newline].
Proof. vm_compute. repeat split. Qed.


(* ===================================================================== *)
(** * Threads: every run is a sequence of uninterrupted passages *)
(* ===================================================================== *)

Section Stages.

Lemma log_locked_stages (s : Logger) (w : World) (st : Z) (level : LogLevel)
    (ts buffer : string) :
  log_locked s w st level ts buffer =
  from_console s w st (logEntry_of ts level buffer).
Proof. reflexivity. Qed.

Lemma replay_snoc (ps : list passage) (p : passage) (s : Logger) (w : World) :
  replay (ps ++ [p]) s w =
  log_locked (replay ps s w).1 (replay ps s w).2 (p_steady p) (p_level p)
    (p_timestamp p) (p_buffer p).
Proof. unfold replay. by rewrite foldl_app. Qed.

Lemma replay_cons (ps : list passage) (p : passage) (s : Logger) (w : World) :
  replay (p :: ps) s w =
  replay ps
    (log_locked s w (p_steady p) (p_level p) (p_timestamp p) (p_buffer p)).1
    (log_locked s w (p_steady p) (p_level p) (p_timestamp p) (p_buffer p)).2.
Proof.
  unfold replay. cbn [foldl fst snd].
  by destruct (log_locked s w _ _ _ _).
Qed.

End Stages.

Section FilterIsStable.

Lemma filtered_same (s s' : Logger) :
  m_initialized s' = m_initialized s →
  m_currentLevel s' = m_currentLevel s →
  ∀ level, filtered s' level = filtered s level.
Proof. intros H1 H2 level. unfold filtered. by rewrite H1, H2. Qed.

Lemma openLogFile_filtered (s : Logger) (w : World) (level : LogLevel) :
  filtered (openLogFile s w).1.2 level = filtered s level.
Proof.
  destruct (openLogFile_config s w) as (H1 & _ & _ & H2 & _).
  by apply filtered_same.
Qed.

Lemma flushBuffer_filtered (s : Logger) (w : World) (level : LogLevel) :
  filtered (flushBuffer s w).1 level = filtered s level.
Proof. unfold flushBuffer. by destruct (write_messages _ _ _). Qed.

Lemma rotate_filtered (s : Logger) (w : World) (level : LogLevel) :
  filtered (rotate s w).1 level = filtered s level.
Proof.
  unfold rotate. destruct (write_messages _ _ _) as [f w1].
  match goal with
  | |- context [openLogFile ?a ?b] =>
      pose proof (openLogFile_filtered a b level) as Hc;
      destruct (openLogFile a b) as [[ok s3] w3]
  end.
  cbn in Hc. unfold filtered in *. logger_simpl. rewrite Hc.
  unfold closeLogFile. by destruct (is_open _).
Qed.

Lemma checkRotation_filtered (s : Logger) (w : World) (n : Z)
    (level : LogLevel) :
  filtered (checkRotation s w n).1 level = filtered s level.
Proof.
  unfold checkRotation. destruct (shouldRotate _ _ _); [|done].
  apply rotate_filtered.
Qed.

Lemma from_flush_check_filtered (s : Logger) (w : World) (st : Z)
    (level : LogLevel) :
  filtered (from_flush_check s w st).1 level = filtered s level.
Proof.
  unfold from_flush_check. case_match; [|done]. apply flushBuffer_filtered.
Qed.

End FilterIsStable.

Section Invariant.

Variables (s0 : Logger) (w0 : World).

Lemma thread_inv_lock (m : option nat) (s : Logger) (w : World)
    (ps : list passage) (j : nat) (t : thread) :
  thread_inv s0 w0 m s w ps j t → holds_lock (t_pc t) = true → m = Some j.
Proof.
  unfold thread_inv, holds_lock. destruct (t_pc t); cbn; try done;
    intros (_ & _ & _ & H & _) _; exact H.
Qed.

Lemma recorded_mono (ps ps' : list passage) (j : nat) (t : thread) :
  (∀ p, p ∈ ps → p ∈ ps') → recorded ps j t → recorded ps' j t.
Proof. intros Hsub (p & Hp & H). exists p. split; [by apply Hsub|exact H]. Qed.

(** What holds of a thread survives the steps of the others: they change
    the shared state only while they hold the lock. *)
Lemma thread_inv_frame (m m' : option nat) (s s' : Logger) (w w' : World)
    (ps ps' : list passage) (j : nat) (t : thread) :
  thread_inv s0 w0 m s w ps j t →
  (m = Some j → m' = m ∧ s' = s ∧ w' = w ∧ ps' = ps) →
  (∀ p, p ∈ ps → p ∈ ps') →
  thread_inv s0 w0 m' s' w' ps' j t.
Proof.
  intros Hinv Hsame Hsub.
  pose proof (thread_inv_lock _ _ _ _ _ _ Hinv) as Hlock.
  unfold thread_inv, holds_lock in *.
  destruct (t_pc t); cbn in *; try done;
    try (destruct (Hsame (Hlock eq_refl)) as (-> & -> & -> & ->); done).
  destruct Hinv as (? & ? & ? & ?). eauto using recorded_mono.
Qed.

End Invariant.

Section Preservation.

(** Rebuilding the invariant after thread [i] has moved from [t] to [t']. *)
Lemma inv_after (c0 c : config) (ps ps' : list passage) (i : nat)
    (t t' : thread) (m' : option nat) (s' : Logger) (w' : World)
    (now : wall_clock) (st : Z) :
  inv c0 c ps →
  threads c !! i = Some t →
  t_level t' = t_level t →
  t_expansion t' = t_expansion t →
  thread_inv (logger c0) (world c0) m' s' w' ps' i t' →
  (∀ j, j ≠ i → m_logMutex c = Some j →
        m' = m_logMutex c ∧ s' = logger c ∧ w' = world c ∧ ps' = ps) →
  (∀ p, p ∈ ps → p ∈ ps') →
  (m' = None → (s', w') = replay ps' (logger c0) (world c0)) →
  (∀ j, m' = Some j → j ≠ i → m_logMutex c = Some j) →
  (m' = Some i → holds_lock (t_pc t') = true) →
  (∀ level, filtered s' level = filtered (logger c) level) →
  NoDup (p_thread <$> ps') →
  (∀ p, p ∈ ps' →
        (p ∈ ps ∧ (p_thread p = i → completed (t_pc t') = true))
        ∨ (p_thread p = i ∧ completed (t_pc t') = true)) →
  inv c0 (mk_config s' w' m' (<[i := t']> (threads c)) now st) ps'.
Proof.
  intros Hinv Hi Hlvl Hexp Ht' Hframe Hsub Hfree Hother Hself Hfilt Hnd Hps.
  pose proof (lookup_lt_Some _ _ _ Hi) as Hlen.
  destruct Hinv as [Ith Ilen Iargs Ifree Iowner Ifilter Inodup Ipass].
  constructor; cbn [threads logger world m_logMutex].
  - intros j tj Hj. destruct (decide (j = i)) as [->|Hne].
    + rewrite list_lookup_insert_eq in Hj by done. by simplify_eq.
    + rewrite list_lookup_insert_ne in Hj by congruence.
      eapply thread_inv_frame; [by apply Ith| |done].
      intros Hm. by apply (Hframe j).
  - by rewrite length_insert.
  - intros j tj Hj. destruct (decide (j = i)) as [->|Hne].
    + rewrite list_lookup_insert_eq in Hj by done. simplify_eq.
      destruct (Iargs _ _ Hi) as (t0 & ? & ? & ?).
      exists t0. split; [done|]. split; congruence.
    + rewrite list_lookup_insert_ne in Hj by congruence. by apply Iargs.
  - exact Hfree.
  - intros j Hj. destruct (decide (j = i)) as [->|Hne].
    + exists t'. rewrite list_lookup_insert_eq by done. auto.
    + destruct (Iowner j (Hother j Hj Hne)) as (tj & ? & ?).
      exists tj. by rewrite list_lookup_insert_ne by congruence.
  - intros level. by rewrite Hfilt.
  - exact Hnd.
  - intros p Hp. destruct (decide (p_thread p = i)) as [Heq|Hne].
    + exists t'. rewrite Heq, list_lookup_insert_eq by done.
      split; [done|]. destruct (Hps p Hp) as [[_ H]|[_ H]]; auto.
    + destruct (Hps p Hp) as [[Hold _]|[Heq _]]; [|done].
      destruct (Ipass p Hold) as (tp & ? & ?).
      exists tp. by rewrite list_lookup_insert_ne by congruence.
Qed.

(** A thread that has not completed its passage has none on record. *)
Lemma not_recorded_yet (c0 c : config) (ps : list passage) (i : nat)
    (t : thread) :
  inv c0 c ps → threads c !! i = Some t → completed (t_pc t) = false →
  i ∉ p_thread <$> ps.
Proof.
  intros Hinv Hi Hc Hin.
  apply list_elem_of_fmap in Hin as (p & -> & Hp).
  destruct (inv_passages _ _ _ Hinv p Hp) as (tp & Htp & Hcp).
  rewrite Hi in Htp. simplify_eq. congruence.
Qed.

Lemma nodup_snoc (ps : list passage) (p : passage) :
  NoDup (p_thread <$> ps) → p_thread p ∉ p_thread <$> ps →
  NoDup (p_thread <$> (ps ++ [p])%list).
Proof.
  intros Hnd Hnin. rewrite fmap_app. apply NoDup_app.
  split; [done|]. split; [|apply NoDup_singleton].
  intros x Hx Hx'. apply list_elem_of_singleton in Hx'. by subst.
Qed.

End Preservation.

Section Steps.

(** The lock is free or held by another thread when thread [i] stands
    outside of the locked part. *)
Lemma not_owner (c0 c : config) (ps : list passage) (i : nat) (t : thread) :
  inv c0 c ps → threads c !! i = Some t → holds_lock (t_pc t) = false →
  m_logMutex c ≠ Some i.
Proof.
  intros Hinv Hi Hl Hm.
  destruct (inv_owner _ _ _ Hinv i Hm) as (t' & Ht' & Hl').
  rewrite Hi in Ht'. simplify_eq. congruence.
Qed.

(** A step that changes nothing but the state of the thread that takes it,
    outside of the locked part. *)
Lemma local_step_inv (c0 c : config) (ps : list passage) (i : nat)
    (t t' : thread) :
  inv c0 c ps → threads c !! i = Some t →
  t_level t' = t_level t → t_expansion t' = t_expansion t →
  holds_lock (t_pc t) = false → completed (t_pc t) = false →
  holds_lock (t_pc t') = false →
  thread_inv (logger c0) (world c0) (m_logMutex c) (logger c) (world c) ps
    i t' →
  inv c0 (set_thread i t' c) ps.
Proof.
  intros Hinv Hi Hl He Hh Hc Hh' Ht'.
  pose proof (not_owner _ _ _ _ _ Hinv Hi Hh) as Hno.
  pose proof (not_recorded_yet _ _ _ _ _ Hinv Hi Hc) as Hnr.
  unfold set_thread.
  eapply (inv_after _ _ _ _ _ _ _ _ _ _ _ _ Hinv Hi); try done.
  - apply (inv_free _ _ _ Hinv).
  - apply (inv_nodup _ _ _ Hinv).
  - intros p Hp. left. split; [done|]. intros Hpi. exfalso.
    apply Hnr. rewrite <- Hpi. by apply list_elem_of_fmap_2.
Qed.

(** What the invariant says of a thread inside the locked part. *)
Lemma thread_inv_in_progress (s0 : Logger) (w0 : World) (m : option nat)
    (s : Logger) (w : World) (ps : list passage) (i : nat) (t : thread) :
  in_progress (t_pc t) = true →
  thread_inv s0 w0 m s w ps i t ↔
  (filtered s0 (t_level t) = false ∧ stamped t ∧ rendered t ∧ m = Some i
   ∧ ∀ st, remaining t st s w =
           log_locked (replay ps s0 w0).1 (replay ps s0 w0).2 st
             (t_level t) (t_timestampBuffer t) (t_buffer t)).
Proof. unfold thread_inv. by destruct (t_pc t). Qed.

Lemma in_progress_holds_lock (p : pc) :
  in_progress p = true → holds_lock p = true ∧ completed p = false.
Proof. by destruct p. Qed.

(** A step inside the locked part that leaves the thread inside it. *)
Lemma locked_step_inv (c0 c : config) (ps : list passage) (i : nat)
    (t t' : thread) (s' : Logger) (w' : World) :
  inv c0 c ps → threads c !! i = Some t →
  t_level t' = t_level t → t_expansion t' = t_expansion t →
  t_timestampBuffer t' = t_timestampBuffer t → t_buffer t' = t_buffer t →
  in_progress (t_pc t) = true → in_progress (t_pc t') = true →
  (∀ level, filtered s' level = filtered (logger c) level) →
  (∀ st, remaining t' st s' w' = remaining t st (logger c) (world c)) →
  inv c0 (set_thread i t' (set_shared s' w' c)) ps.
Proof.
  intros Hinv Hi Hl He Hts Hb Hp Hp' Hf Hrem.
  pose proof (inv_threads _ _ _ Hinv i t Hi) as Ht.
  apply thread_inv_in_progress in Ht as (Hadm & Hst & Hre & Hm & Heq);
    [|done].
  destruct (in_progress_holds_lock _ Hp) as [Hh Hc].
  destruct (in_progress_holds_lock _ Hp') as [Hh' Hc'].
  pose proof (not_recorded_yet _ _ _ _ _ Hinv Hi Hc) as Hnr.
  unfold set_thread, set_shared.
  cbn [logger world m_logMutex threads wall_now steady].
  eapply (inv_after _ _ _ _ _ _ _ _ _ _ _ _ Hinv Hi); try done.
  - apply thread_inv_in_progress; [done|].
    unfold stamped, rendered in *. rewrite Hl, He, Hts, Hb.
    repeat split; try done. intros st. by rewrite Hrem.
  - intros j Hne Hj. congruence.
  - intros Hn. congruence.
  - apply (inv_nodup _ _ _ Hinv).
  - intros p Hp0. left. split; [done|]. intros Hpi. exfalso.
    apply Hnr. rewrite <- Hpi. by apply list_elem_of_fmap_2.
Qed.

(** The step that completes the passage of thread [i]. *)
Lemma completing_step_inv (c0 c : config) (ps : list passage) (i : nat)
    (t : thread) (s' : Logger) (w' : World) :
  inv c0 c ps → threads c !! i = Some t →
  in_progress (t_pc t) = true →
  (∀ level, filtered s' level = filtered (logger c) level) →
  (s', w') = remaining t (steady c) (logger c) (world c) →
  inv c0 (set_thread i (at_pc AtUnlock t) (set_shared s' w' c))
    (ps ++ [mk_passage i (t_level t) (t_timestampBuffer t) (t_buffer t)
              (steady c)]).
Proof.
  intros Hinv Hi Hp Hf Hrem.
  pose proof (inv_threads _ _ _ Hinv i t Hi) as Ht.
  apply thread_inv_in_progress in Ht as (Hadm & Hst & Hre & Hm & Heq);
    [|done].
  destruct (in_progress_holds_lock _ Hp) as [Hh Hc].
  pose proof (not_recorded_yet _ _ _ _ _ Hinv Hi Hc) as Hnr.
  set (p := mk_passage i _ _ _ _).
  unfold set_thread, set_shared.
  cbn [logger world m_logMutex threads wall_now steady].
  eapply (inv_after _ _ _ _ _ _ _ _ _ _ _ _ Hinv Hi); try done.
  - unfold thread_inv. cbn [at_pc t_pc t_level].
    repeat split; try done.
    + exists p. split.
      * apply elem_of_app. right. by apply list_elem_of_singleton.
      * by subst p.
    + rewrite replay_snoc. subst p. cbn [p_steady p_level p_timestamp
        p_buffer]. by rewrite <- Heq.
  - intros j Hne Hj. congruence.
  - intros q Hq. apply elem_of_app. by left.
  - intros Hn. rewrite Hm in Hn. done.
  - apply nodup_snoc; [apply (inv_nodup _ _ _ Hinv)|done].
  - intros q Hq. apply elem_of_app in Hq as [Hq|Hq].
    + left. split; [done|]. intros Hqi. exfalso.
      apply Hnr. rewrite <- Hqi. by apply list_elem_of_fmap_2.
    + right. apply list_elem_of_singleton in Hq. by subst.
Qed.

(** Taking the lock. *)
Lemma lock_step_inv (c0 c : config) (ps : list passage) (i : nat)
    (t : thread) :
  inv c0 c ps → threads c !! i = Some t →
  t_pc t = AtLock → m_logMutex c = None →
  inv c0 (set_thread i (at_pc AtCompose t) (set_mutex (Some i) c)) ps.
Proof.
  intros Hinv Hi Hpc Hm.
  pose proof (inv_threads _ _ _ Hinv i t Hi) as Ht.
  unfold thread_inv in Ht. rewrite Hpc in Ht.
  destruct Ht as (Hadm & Hst & Hre).
  assert (completed (t_pc t) = false) as Hc by (by rewrite Hpc).
  pose proof (not_recorded_yet _ _ _ _ _ Hinv Hi Hc) as Hnr.
  pose proof (inv_free _ _ _ Hinv Hm) as Hfree.
  unfold set_thread, set_mutex.
  cbn [logger world m_logMutex threads wall_now steady].
  eapply (inv_after _ _ _ _ _ _ _ _ _ _ _ _ Hinv Hi); try done.
  - apply thread_inv_in_progress; [done|].
    repeat split; try done. intros st.
    unfold remaining. cbn [at_pc t_pc t_level t_timestampBuffer t_buffer].
    by rewrite <- Hfree, log_locked_stages.
  - intros j _ Hj. congruence.
  - intros j Hj Hne. congruence.
  - apply (inv_nodup _ _ _ Hinv).
  - intros p Hp. left. split; [done|]. intros Hpi. exfalso.
    apply Hnr. rewrite <- Hpi. by apply list_elem_of_fmap_2.
Qed.

(** Releasing the lock. *)
Lemma unlock_step_inv (c0 c : config) (ps : list passage) (i : nat)
    (t : thread) :
  inv c0 c ps → threads c !! i = Some t → t_pc t = AtUnlock →
  inv c0 (set_thread i (at_pc Returned t) (set_mutex None c)) ps.
Proof.
  intros Hinv Hi Hpc.
  pose proof (inv_threads _ _ _ Hinv i t Hi) as Ht.
  unfold thread_inv in Ht. rewrite Hpc in Ht.
  destruct Ht as (Hadm & Hst & Hre & Hm & Hrec & Heq).
  unfold set_thread, set_mutex.
  cbn [logger world m_logMutex threads wall_now steady].
  eapply (inv_after _ _ _ _ _ _ _ _ _ _ _ _ Hinv Hi); try done.
  - intros j Hne Hj. congruence.
  - apply (inv_nodup _ _ _ Hinv).
  - intros p Hp. by left.
Qed.

(** Every step keeps the invariant, with the passage it completes, if any,
    added at the end. *)
Lemma step_inv (c0 c c' : config) (ps : list passage) (a : action) :
  inv c0 c ps → step a c = Some c' →
  ∃ ps', inv c0 c' ps' ∧ ∃ rest, ps' = (ps ++ rest)%list.
Proof.
  intros Hinv Hstep. destruct a as [now st|i]; cbn [step] in Hstep.
  { simplify_eq. exists ps. split; [|exists []; by rewrite app_nil_r].
    destruct Hinv. by constructor. }
  destruct (threads c !! i) as [t|] eqn:Hi; [|done].
  pose proof (inv_threads _ _ _ Hinv i t Hi) as Ht.
  unfold step_thread in Hstep.
  destruct (t_pc t) eqn:Hpc; try done.
  - (* the guard *)
    simplify_eq. exists ps. split; [|exists []; by rewrite app_nil_r].
    apply (local_step_inv _ _ _ _ t); try done; try (by rewrite Hpc).
    + by destruct (filtered (logger c) (t_level t)).
    + unfold thread_inv. cbn [at_pc t_pc t_level].
      pose proof (inv_filter _ _ _ Hinv (t_level t)) as Hf.
      destruct (filtered (logger c) (t_level t)); by rewrite <- Hf.
  - (* the timestamp *)
    simplify_eq. exists ps. split; [|exists []; by rewrite app_nil_r].
    unfold thread_inv in Ht. rewrite Hpc in Ht.
    apply (local_step_inv _ _ _ _ t); try done; try (by rewrite Hpc).
    unfold thread_inv. cbn. split; [done|]. by eexists.
  - (* the rendering *)
    simplify_eq. exists ps. split; [|exists []; by rewrite app_nil_r].
    unfold thread_inv in Ht. rewrite Hpc in Ht. destruct Ht as [Hadm Hst].
    apply (local_step_inv _ _ _ _ t); try done; by rewrite Hpc.
  - (* lockMutex *)
    destruct (m_logMutex c) eqn:Hm; [done|]. simplify_eq.
    exists ps. split; [|exists []; by rewrite app_nil_r].
    by apply lock_step_inv.
  - (* composing the line *)
    simplify_eq. exists ps. split; [|exists []; by rewrite app_nil_r].
    match goal with
    | |- inv _ (set_thread ?j ?u c) _ =>
        change (inv c0 (set_thread j u (set_shared (logger c) (world c) c))
                  ps)
    end.
    apply (locked_step_inv _ _ _ _ t); try done; try (by rewrite Hpc).
    intros st. unfold remaining. by rewrite Hpc.
  - (* the console *)
    simplify_eq. exists ps. split; [|exists []; by rewrite app_nil_r].
    apply (locked_step_inv _ _ _ _ t); try done; try (by rewrite Hpc).
    intros st. unfold remaining. by rewrite Hpc.
  - (* openLogFile *)
    pose proof (openLogFile_filtered (logger c) (world c)) as Hf.
    destruct (openLogFile (logger c) (world c)) as [[file_ok s2] w2] eqn:Ho.
    simplify_eq. destruct file_ok; cbn [negb].
    + exists ps. split; [|exists []; by rewrite app_nil_r].
      apply (locked_step_inv _ _ _ _ t); try done; try (by rewrite Hpc).
      intros st. unfold remaining. rewrite Hpc. cbn [at_pc t_pc t_logEntry].
      unfold from_open. by rewrite Ho.
    + eexists. split; [|by eexists].
      apply completing_step_inv; try done; try (by rewrite Hpc).
      unfold remaining. rewrite Hpc. unfold from_open. by rewrite Ho.
  - (* checkRotation *)
    pose proof (checkRotation_filtered (logger c) (world c)
                  (size (t_logEntry t))) as Hf.
    destruct (checkRotation _ _ _) as [s3 w3] eqn:Hr.
    simplify_eq. exists ps. split; [|exists []; by rewrite app_nil_r].
    apply (locked_step_inv _ _ _ _ t); try done; try (by rewrite Hpc).
    intros st. unfold remaining. rewrite Hpc. cbn [at_pc t_pc t_logEntry].
    unfold from_rotation. by rewrite Hr.
  - (* push_back *)
    simplify_eq. exists ps. split; [|exists []; by rewrite app_nil_r].
    apply (locked_step_inv _ _ _ _ t); try done; try (by rewrite Hpc).
    intros st. unfold remaining. by rewrite Hpc.
  - (* the running size *)
    simplify_eq. exists ps. split; [|exists []; by rewrite app_nil_r].
    apply (locked_step_inv _ _ _ _ t); try done; try (by rewrite Hpc).
    intros st. unfold remaining. by rewrite Hpc.
  - (* the flush check *)
    pose proof (from_flush_check_filtered (logger c) (world c) (steady c))
      as Hf.
    unfold from_flush_check in Hf.
    match type of Hstep with
    | context [if ?b then _ else _] =>
        destruct (if b then flushBuffer (logger c) (world c)
                  else (logger c, world c)) as [s' w'] eqn:Hfl
    end.
    simplify_eq. eexists. split; [|by eexists].
    apply completing_step_inv; try done; try (by rewrite Hpc).
    unfold remaining. rewrite Hpc. unfold from_flush_check. by rewrite Hfl.
  - (* unlockMutex *)
    simplify_eq. exists ps. split; [|exists []; by rewrite app_nil_r].
    by apply unlock_step_inv.
Qed.

End Steps.

Section Runs.

Lemma inv_initial (c0 : config) : initial c0 → inv c0 c0 [].
Proof.
  intros [Hm Hpc]. constructor.
  - intros i t Hi. unfold thread_inv. by rewrite (Hpc i t Hi).
  - done.
  - intros i t Hi. by exists t.
  - done.
  - intros i Hi. congruence.
  - done.
  - apply NoDup_nil_2.
  - intros p Hp. by apply elem_of_nil in Hp.
Qed.

Lemma run_inv (c0 : config) (sch : list action) (c c' : config)
    (ps : list passage) :
  inv c0 c ps → run sch c = Some c' → ∃ ps', inv c0 c' ps'.
Proof.
  revert c ps. induction sch as [|a sch IH]; intros c ps Hinv Hrun.
  - cbn in Hrun. simplify_eq. by exists ps.
  - cbn [run] in Hrun. destruct (step a c) as [c1|] eqn:Hs; [|done].
    destruct (step_inv _ _ _ _ _ Hinv Hs) as (ps1 & Hinv1 & _).
    by apply (IH c1 ps1).
Qed.

Lemma nodup_fmap_inj {A B : Type} (f : A → B) (l : list A) (x y : A) :
  NoDup (f <$> l) → x ∈ l → y ∈ l → f x = f y → x = y.
Proof.
  induction l as [|z l IH]; intros Hnd Hx Hy Hf.
  - by apply elem_of_nil in Hx.
  - rewrite fmap_cons in Hnd. apply NoDup_cons in Hnd as [Hz Hnd].
    apply elem_of_cons in Hx as [->|Hx]; apply elem_of_cons in Hy as [->|Hy].
    + done.
    + exfalso. apply Hz. rewrite Hf. by apply list_elem_of_fmap_2.
    + exfalso. apply Hz. rewrite <- Hf. by apply list_elem_of_fmap_2.
    + by apply IH.
Qed.

End Runs.

Section OneAfterTheOther.

Lemma logLevelToString_length (level : LogLevel) :
  String.length (logLevelToString level) = 5%nat.
Proof. by destruct level. Qed.

Lemma logEntry_size (ts buffer : string) (level : LogLevel) :
  size (logEntry_of ts level buffer) = 12 + size ts + size buffer.
Proof.
  unfold logEntry_of, size, newline.
  rewrite !str_length_app, logLevelToString_length. cbn [String.length]. lia.
Qed.

Lemma getTimestamp_size (now : wall_clock) :
  size (getTimestamp TIME_STAMP_BUFFER now) ≤ 31.
Proof.
  unfold getTimestamp, size.
  match goal with
  | |- context [CStr.snprintf ?n ?e] =>
      pose proof (snprintf_length n e) as H
  end.
  unfold TIME_STAMP_BUFFER in *. lia.
Qed.

Lemma passage_line_size (ts buffer e : string) (level : LogLevel)
    (now : wall_clock) :
  ts = getTimestamp TIME_STAMP_BUFFER now →
  buffer = CStr.snprintf m_bufferSize e →
  size (logEntry_of ts level buffer) ≤ 298.
Proof.
  intros -> ->. rewrite logEntry_size.
  pose proof (getTimestamp_size now) as Hts.
  pose proof (snprintf_length m_bufferSize e) as H.
  unfold m_bufferSize, BUFFER_SIZE, size in *. lia.
Qed.

(** In the steady state the locked part of [log] adds its line at the end of
    the log, and the state stays steady. *)
Lemma log_locked_appends (s : Logger) (w : World) (st : Z)
    (level : LogLevel) (ts buffer : string) :
  steady_state s →
  size (logEntry_of ts level buffer) ≤ 298 →
  steady_state (log_locked s w st level ts buffer).1
  ∧ log_text (log_locked s w st level ts buffer).1
      (log_locked s w st level ts buffer).2 =
    log_text s w +:+ logEntry_of ts level buffer.
Proof.
  intros (Ho & Hg & Ht & Hc & Hm & Hx) Hsz.
  unfold log_locked.
  set (line := logEntry_of ts level buffer) in *.
  set (w1 := if m_consoleOutput s then write_cout line w else w).
  assert (files w1 = files w) as Hf1.
  { subst w1. by destruct (m_consoleOutput s). }
  rewrite openLogFile_open by done. cbn [negb].
  assert (0 ≤ size line) as Hpos by (unfold size; lia).
  assert (shouldRotate (m_currentFileSize s) (size line) (m_maxFileSize s)
          = false) as Hrot.
  { unfold shouldRotate, wrap_size_t. rewrite Z.mod_small by lia.
    rewrite Z.gtb_ltb. apply Z.ltb_ge. lia. }
  unfold checkRotation. rewrite Hrot.
  logger_simpl.
  assert (wrap_size_t (m_currentFileSize s + size (moved_from line)) =
          m_currentFileSize s) as ->.
  { unfold wrap_size_t, moved_from, size. cbn [String.length].
    rewrite Z.add_0_r. apply Z.mod_small. lia. }
  assert (Fs.content w1 (m_logFilePath s) = Fs.content w (m_logFilePath s))
    as Hc1.
  { unfold Fs.content. by rewrite Hf1. }
  match goal with
  | |- context [if ?b then _ else _] => destruct b
  end.
  - unfold flushBuffer. logger_simpl.
    rewrite write_messages_open by done. logger_simpl.
    split; [done|].
    unfold log_text. logger_simpl. rewrite Ht, content_append_all, Hc1.
    rewrite concat_lines_app. cbn [concat_lines foldr].
    by rewrite !str_app_nil_r, str_app_assoc.
  - logger_simpl. split; [done|].
    unfold log_text. logger_simpl. rewrite Hc1, concat_lines_app.
    cbn [concat_lines foldr]. by rewrite !str_app_nil_r, str_app_assoc.
Qed.

Lemma replay_log_text (ps : list passage) (s : Logger) (w : World) :
  steady_state s →
  (∀ p, p ∈ ps → size (passage_line p) ≤ 298) →
  steady_state (replay ps s w).1
  ∧ log_text (replay ps s w).1 (replay ps s w).2 =
    log_text s w +:+ concat_lines (passage_line <$> ps).
Proof.
  revert s w. induction ps as [|p ps IH]; intros s w Hs Hsz.
  - cbn. by rewrite str_app_nil_r.
  - destruct (log_locked_appends s w (p_steady p) (p_level p)
                (p_timestamp p) (p_buffer p) Hs) as [Hs1 Ht1].
    { apply Hsz. by left. }
    rewrite replay_cons.
    destruct (IH _ (log_locked s w (p_steady p) (p_level p)
                      (p_timestamp p) (p_buffer p)).2 Hs1) as [Hs2 Ht2].
    { intros q Hq. apply Hsz. by right. }
    split; [exact Hs2|].
    rewrite Ht2, Ht1, fmap_cons, concat_lines_cons.
    by rewrite str_app_assoc.
Qed.

End OneAfterTheOther.

(** C9 as stated fails on the code, in two ways.  The claim puts the
    reading of the timestamp under the lock; [log] calls [getTimestamp]
    before [lockMutex()].  After one step of thread 0 on the sample
    configuration the thread stands at [getTimestamp] and nobody holds the
    lock; and in the schedule [overtaking] thread 0 reads the clock first and
    takes the lock last, so that the line stamped 23:45:13 is queued before
    the line stamped 23:45:12.  The claim also finds every admitted message
    in the resulting log file; with a maximum size of 100 bytes the two calls
    of [one_by_one] are both admitted and both rotate, and the log file and
    the pending lines together hold the second line only, the first being in
    the backup. *)
Lemma timestamp_is_read_without_the_lock :
  ¬ serialized_by_lock claimed_under_lock
  ∧ m_messageBuffer (logger overtaken) =
    ["[2022-02-19 23:45:13.789] [INFO ] from thread 1" +:+ newline;
     "[2022-02-19 23:45:12.456] [INFO ] from thread 0" +:+ newline]
  ∧ (t_pc <$> threads rotated_twice = [Returned; Returned]
     ∧ log_text (logger rotated_twice) (world rotated_twice) =
       "[2022-02-19 23:45:12.456] [INFO ] " +:+ long_text 120 +:+ newline
     ∧ Fs.content (world rotated_twice) "./logs/app.log.bak" =
       "[2022-02-19 23:45:12.456] [INFO ] " +:+ long_text 60 +:+ newline).
Proof.
  split; [|split; [vm_compute; reflexivity|vm_compute; repeat split]].
  intros H.
  assert (initial sample_config) as Hinit.
  { split; [reflexivity|].
    intros [|[|i]] t Hi; cbn in Hi; by simplify_eq. }
  specialize (H sample_config [Run 0] _ 0%nat _ Hinit eq_refl eq_refl eq_refl).
  discriminate H.
Qed.

(** C9, amended.  The statements of [log] from the composition of the line
    to the conditional flush are executed only by the thread that holds the
    lock.  When all threads have left [log], the logger and the environment
    are what the completed passages through the locked part produce when
    they are run one after the other, uninterrupted, in the order in which
    they were completed; there is exactly one passage for each call whose
    level passed the guard and none for the others; each passage carries the
    level of its call, its rendering cut by the 256-byte buffer and a
    timestamp read by [getTimestamp] (before the lock was taken).  If the
    logger starts in the steady state, the log file followed by the pending
    lines is the initial log followed by one whole line per admitted call. *)
Theorem log_calls_are_serialized :
  serialized_by_lock in_progress
  ∧ ∀ c0 sch c,
      initial c0 → run sch c0 = Some c →
      (∀ i t, threads c !! i = Some t →
              t_pc t = Filtered ∨ t_pc t = Returned) →
      ∃ ps,
        (logger c, world c) = replay ps (logger c0) (world c0)
        ∧ NoDup (p_thread <$> ps)
        ∧ (∀ i t0, threads c0 !! i = Some t0 →
             (i ∈ p_thread <$> ps ↔
              filtered (logger c0) (t_level t0) = false))
        ∧ (∀ p, p ∈ ps →
             ∃ t0 now,
               threads c0 !! p_thread p = Some t0
               ∧ p_level p = t_level t0
               ∧ p_buffer p = CStr.snprintf m_bufferSize (t_expansion t0)
               ∧ p_timestamp p = getTimestamp TIME_STAMP_BUFFER now)
        ∧ (steady_state (logger c0) →
           log_text (logger c) (world c) =
           log_text (logger c0) (world c0) +:+
           concat_lines (passage_line <$> ps)).
Proof.
  split.
  { intros c0 sch c i t Hinit Hrun Hi Hp.
    destruct (run_inv c0 sch c0 c [] (inv_initial c0 Hinit) Hrun)
      as [ps Hinv].
    apply (thread_inv_lock _ _ _ _ _ _ _ _ (inv_threads _ _ _ Hinv i t Hi)).
    by apply in_progress_holds_lock. }
  intros c0 sch c Hinit Hrun Hdone.
  destruct (run_inv c0 sch c0 c [] (inv_initial c0 Hinit) Hrun) as [ps Hinv].
  exists ps.
  assert (m_logMutex c = None) as Hfree.
  { destruct (m_logMutex c) as [j|] eqn:Hm; [|done].
    destruct (inv_owner _ _ _ Hinv j Hm) as (t & Ht & Hl).
    destruct (Hdone j t Ht) as [Hpc|Hpc]; by rewrite Hpc in Hl. }
  assert (∀ p, p ∈ ps →
            ∃ t0 now,
              threads c0 !! p_thread p = Some t0
              ∧ p_level p = t_level t0
              ∧ p_buffer p = CStr.snprintf m_bufferSize (t_expansion t0)
              ∧ p_timestamp p = getTimestamp TIME_STAMP_BUFFER now) as Hps.
  { intros p Hp.
    destruct (inv_passages _ _ _ Hinv p Hp) as (t & Ht & Hc).
    pose proof (inv_threads _ _ _ Hinv _ t Ht) as Hti.
    destruct (inv_args _ _ _ Hinv _ t Ht) as (t0 & Ht0 & Hl0 & He0).
    assert (stamped t ∧ rendered t ∧ recorded ps (p_thread p) t)
      as ([now Hst] & Hre & (q & Hq & Hqi & Hql & Hqt & Hqb)).
    { unfold thread_inv in Hti.
      destruct (t_pc t); try done; by destruct_and!. }
    assert (q = p) as ->.
    { by apply (nodup_fmap_inj p_thread ps);
        [apply (inv_nodup _ _ _ Hinv)|..]. }
    exists t0, now. unfold rendered in Hre.
    repeat split; congruence. }
  split; [by apply (inv_free _ _ _ Hinv)|].
  split; [by apply (inv_nodup _ _ _ Hinv)|].
  split; [|split; [exact Hps|]].
  - intros i t0 Ht0.
    assert (is_Some (threads c !! i)) as [t Ht].
    { apply lookup_lt_is_Some. rewrite (inv_length _ _ _ Hinv).
      by apply lookup_lt_is_Some. }
    destruct (inv_args _ _ _ Hinv _ t Ht) as (t0' & Ht0' & Hl0 & _).
    rewrite Ht0 in Ht0'. simplify_eq.
    pose proof (inv_threads _ _ _ Hinv _ t Ht) as Hti.
    unfold thread_inv in Hti. rewrite <- Hl0.
    destruct (Hdone i t Ht) as [Hpc|Hpc]; rewrite Hpc in Hti.
    + split; [|congruence].
      intros Hin. apply list_elem_of_fmap in Hin as (p & -> & Hp).
      destruct (inv_passages _ _ _ Hinv p Hp) as (tp & Htp & Hc).
      rewrite Ht in Htp. simplify_eq. by rewrite Hpc in Hc.
    + destruct Hti as (Hadm & _ & _ & (p & Hp & <- & _)).
      split; [done|]. intros _. by apply list_elem_of_fmap_2.
  - intros Hs.
    pose proof (inv_free _ _ _ Hinv Hfree) as Heq.
    destruct (replay_log_text ps (logger c0) (world c0) Hs) as [_ Ht].
    { intros p Hp. destruct (Hps p Hp) as (t0 & now & _ & _ & Hb & Hts).
      unfold passage_line. by eapply passage_line_size. }
    rewrite <- Heq in Ht. exact Ht.
Qed.

(** A run of C9: the two threads of the sample configuration under the
    schedule [overtaking]. *)
Lemma log_calls_are_serialized_witness :
  ∃ ps,
    (logger overtaken, world overtaken) =
      replay ps (logger sample_config) (world sample_config)
    ∧ NoDup (p_thread <$> ps)
    ∧ log_text (logger overtaken) (world overtaken) =
      log_text (logger sample_config) (world sample_config) +:+
      concat_lines (passage_line <$> ps).
Proof.
  destruct (proj2 log_calls_are_serialized sample_config overtaking overtaken)
    as (ps & H1 & H2 & _ & _ & H5).
  - split; [reflexivity|].
    intros [|[|i]] t Hi; cbn in Hi; by simplify_eq.
  - vm_compute. reflexivity.
  - intros [|[|i]] t Hi; vm_compute in Hi; simplify_eq; by right.
  - exists ps. split; [exact H1|]. split; [exact H2|]. apply H5.
    unfold steady_state. vm_compute. repeat split; discriminate.
Defined.

(* ===================================================================== *)
(** * The model on the scenarios of the test suite *)
(* ===================================================================== *)

Section Scenarios.

Example parent_path_of_log : Fs.parent_path "./logs/app.log" = "./logs".
Proof. reflexivity. Qed.

Example parent_path_of_bare_name : Fs.parent_path "app.log" = "".
Proof. reflexivity. Qed.

Example fmt_d0_pads : CStr.fmt_d0 3 7 = "007" ∧ CStr.fmt_d0 2 45 = "45".
Proof. split; reflexivity. Qed.

(** [init] creates the directory and the file and writes one marker line. *)
Example init_writes_marker :
  sample_init.1.1 = true
  ∧ Fs.is_dir sample_world "./logs" = true
  ∧ Fs.content sample_world "./logs/app.log" =
    "[2022-02-19 23:45:12.456] [INFO] Logger initialized" +:+ newline.
Proof. vm_compute. repeat split. Qed.

(** [init] fails, with a diagnostic, where the directory cannot be made. *)
Example init_fails_on_readonly_directory :
  let w := mk_World ∅ ∅ {["./logs"]} "" "" in
  let r := init (Logger_new 0) w sample_wall "./logs/app.log" INFO true
             MAX_FILE_SIZE in
  r.1.1 = false ∧ m_initialized r.1.2 = false
  ∧ cerr r.2 =
    "Error creating directory: filesystem error: cannot create directories"
    +:+ newline +:+ "Failed to create log directory for: ./logs/app.log"
    +:+ newline.
Proof. vm_compute. repeat split. Qed.

(** Before [init] every call is dropped. *)
Example uninitialized_logger_drops :
  error (Logger_new 0) world0 sample_clocks "lost" = (Logger_new 0, world0).
Proof. reflexivity. Qed.

(** The level test: threshold WARNING keeps ERR and WARNING and drops INFO
    and DEBUG. *)
Example threshold_warning :
  let s := setLevel sample_logger WARNING in
  let r1 := debug s sample_world sample_clocks "Debug should not appear" in
  let r2 := info r1.1 r1.2 sample_clocks "Info should not appear" in
  let r3 := warning r2.1 r2.2 sample_clocks "Warning should appear" in
  let r4 := error r3.1 r3.2 sample_clocks "Error should appear" in
  m_messageBuffer r4.1 =
  ["[2022-02-19 23:45:12.456] [WARN ] Warning should appear" +:+ newline;
   "[2022-02-19 23:45:12.456] [ERROR] Error should appear" +:+ newline].
Proof. vm_compute. reflexivity. Qed.

(** A rendering of 300 bytes leaves 255 of them in the line. *)
Example long_message_is_cut :
  m_messageBuffer
    (info sample_logger sample_world sample_clocks (long_text 300)).1 =
  ["[2022-02-19 23:45:12.456] [INFO ] " +:+ long_text 255 +:+ newline].
Proof. vm_compute. reflexivity. Qed.

End Scenarios.

(* ===================================================================== *)
(** * Opening the log file *)
(* ===================================================================== *)



(** X2.  [openLogFile] on a closed stream, at a path that may not be opened
    for writing (no permission, or a directory): both attempts fail, it
    returns false, the stream stays closed with its failure flag set, and
    neither the environment nor the rest of the logger changes. *)
Theorem openLogFile_refused (s : Logger) (w : World) :
  is_open (m_logFile s) = false →
  Fs.writable w (m_logFilePath s) && negb (Fs.is_dir w (m_logFilePath s))
    = false →
  openLogFile s w =
    (false, with_logFile (mk_ofstream false (target (m_logFile s)) false) s,
     w).
Proof.
  intros Ho Hw. unfold openLogFile, Ofstream.open, Fs.open.
  rewrite Ho, Hw. cbn. rewrite Ho. cbn. rewrite Hw. cbn. rewrite Ho. cbn.
  unfold Ofstream.set_fail. cbn. by rewrite Ho.
Qed.

Lemma openLogFile_refused_witness :
  openLogFile sample_logger_closed sample_world_nolog =
  (false,
   with_logFile (mk_ofstream false "./logs/app.log" false)
     sample_logger_closed,
   sample_world_nolog).
Proof.
  apply (openLogFile_refused sample_logger_closed sample_world_nolog);
    vm_compute; reflexivity.
Defined.

(* ===================================================================== *)
(** * The log directory *)
(* ===================================================================== *)



(* ===================================================================== *)
(** * Draining into a stream that cannot take the lines *)
(* ===================================================================== *)

Section LostLines.

Lemma write_messages_unusable (f : ofstream) (w : World) (l : list string) :
  is_open f && good f = false →
  (write_messages f w l).2 = w
  ∧ is_open (write_messages f w l).1 = is_open f
  ∧ target (write_messages f w l).1 = target f.
Proof.
  revert f. induction l as [|x l IH]; intros f Hf; [done|].
  cbn [write_messages]. unfold Ofstream.insert.
  destruct (good f) eqn:Hg, (is_open f) eqn:Ho; cbn [negb]; try done.
  - destruct (String.eqb x "").
    + rewrite <- Ho. apply IH. by rewrite Ho.
    + destruct (IH (Ofstream.set_fail f)) as (-> & -> & ->); [|done].
      cbn. by rewrite Ho.
  - rewrite <- Ho. apply IH. by rewrite Hg, andb_false_r.
  - rewrite <- Ho. apply IH. by rewrite Hg, andb_false_r.
Qed.

End LostLines.

(** X4.  [flushBuffer] on a stream that is closed or has a failure flag
    set: the pending lines are dropped.  Nothing is written anywhere, and the
    pending sequence is empty afterwards. *)
Theorem flushBuffer_drops_on_unusable_stream (s : Logger) (w : World) :
  is_open (m_logFile s) && good (m_logFile s) = false →
  (flushBuffer s w).2 = w
  ∧ m_messageBuffer (flushBuffer s w).1 = []
  ∧ is_open (m_logFile (flushBuffer s w).1) = is_open (m_logFile s).
Proof.
  intros Hf. unfold flushBuffer.
  destruct (write_messages_unusable _ w (m_messageBuffer s) Hf)
    as (Hw & Ho & _).
  destruct (write_messages _ _ _) as [f w']. cbn in *. by subst.
Qed.

Lemma flushBuffer_drops_on_unusable_stream_witness :
  (flushBuffer sample_logger_closed sample_world).2 = sample_world
  ∧ m_messageBuffer (flushBuffer sample_logger_closed sample_world).1 = [].
Proof.
  destruct (flushBuffer_drops_on_unusable_stream sample_logger_closed
              sample_world) as (H1 & H2 & _);
    [vm_compute; reflexivity|].
  exact (conj H1 H2).
Defined.

(* ===================================================================== *)
(** * A rotation that the file system refuses *)
(* ===================================================================== *)

Section RefusedRotation.

(** [rotateLogFile] where nothing may be done at the backup path. *)
Lemma rotateLogFile_refused (s : Logger) (w : World) :
  let p := m_logFilePath s in
  let b := m_logFilePath s +:+ ".bak" in
  is_Some (files w !! p) →
  Fs.writable w b = false →
  files (rotateLogFile s w) = files w
  ∧ dirs (rotateLogFile s w) = dirs w
  ∧ readonly (rotateLogFile s w) = readonly w
  ∧ cout (rotateLogFile s w) = cout w
  ∧ cerr (rotateLogFile s w) =
    (cerr w +:+
     (if Fs.exists_ w b
      then "Failed to remove backup file: Permission denied" +:+ newline
      else "")) +:+
    "Failed to rename log file: Permission denied" +:+ newline.
Proof.
  intros p b [data Hdata] Hwb. unfold rotateLogFile. fold b. fold p.
  destruct (Fs.exists_ w b).
  - unfold Fs.remove. rewrite Hwb. unfold Fs.rename. cbn.
    rewrite Hdata. unfold Fs.writable in *. cbn. rewrite Hwb.
    rewrite andb_false_r. cbn. done.
  - unfold Fs.rename. rewrite Hdata, Hwb, andb_false_r. cbn.
    by rewrite str_app_nil_r.
Qed.

End RefusedRotation.

(** X5.  A rotation whose rename is refused because nothing may be done at
    the backup path: no line is lost.  The pending lines are written behind
    the content of the log file, which stays where it is; the stream is
    reopened on it for appending; no other file changes; the pending sequence
    is empty; the diagnostics of the failed steps are printed; and the running
    size is set to 0 although the file is not empty. *)
Theorem rotate_refused_keeps_log (s : Logger) (w : World) :
  let p := m_logFilePath s in
  let b := m_logFilePath s +:+ ".bak" in
  is_open (m_logFile s) = true →
  good (m_logFile s) = true →
  target (m_logFile s) = p →
  Fs.is_file w p = true →
  Fs.writable w p = true →
  Fs.is_dir w p = false →
  Fs.writable w b = false →
  files (rotate s w).2 !! p =
    Some (Fs.content w p +:+ concat_lines (m_messageBuffer s))
  ∧ (∀ q, q ≠ p → files (rotate s w).2 !! q = files w !! q)
  ∧ m_logFile (rotate s w).1 = mk_ofstream true p true
  ∧ m_messageBuffer (rotate s w).1 = []
  ∧ m_currentFileSize (rotate s w).1 = 0
  ∧ cerr (rotate s w).2 =
    (cerr w +:+
     (if Fs.exists_ w b
      then "Failed to remove backup file: Permission denied" +:+ newline
      else "")) +:+
    "Failed to rename log file: Permission denied" +:+ newline.
Proof.
  intros p b Ho Hg Ht Hf Hwp Hdp Hwb.
  apply bool_decide_eq_true_1, elem_of_dom in Hf.
  unfold rotate. rewrite write_messages_open by done. rewrite Ht.
  set (l := m_messageBuffer s).
  set (w1 := append_all p w l).
  unfold closeLogFile.
  change (m_logFile (with_messageBuffer [] (with_logFile (m_logFile s) s)))
    with (m_logFile s).
  rewrite Ho. unfold Ofstream.close. rewrite Ho, Ht, Hg.
  set (s2 := with_logFile (mk_ofstream false p true) _).
  destruct (append_all_frame p l w) as (Hd1 & Hr1 & Ho1 & He1).
  assert (files w1 !! p = Some (Fs.content w p +:+ concat_lines l)) as Hf1.
  { subst w1. by rewrite files_append_all_eq. }
  destruct (rotateLogFile_refused s2 w1) as (Hfs & Hds & Hro & Hco & Hce).
  { change (m_logFilePath s2) with p. rewrite Hf1. eauto. }
  { change (m_logFilePath s2) with p. fold b. subst w1.
    by rewrite writable_append_all. }
  change (m_logFilePath s2) with p in *.
  change (p +:+ ".bak") with b in Hce.
  set (w2 := rotateLogFile s2 w1) in *.
  assert (Fs.exists_ w1 b = Fs.exists_ w b) as Hex.
  { unfold Fs.exists_, Fs.is_file, Fs.is_dir. subst w1. rewrite Hd1.
    f_equal. apply bool_decide_ext. rewrite !elem_of_dom.
    rewrite files_append_all_ne; [done|apply bak_neq]. }
  rewrite openLogFile_closed_ok; try done.
  2: { unfold Fs.writable in *. rewrite Hro. subst w1. by rewrite Hr1. }
  2: { unfold Fs.is_dir in *. rewrite Hds. subst w1. by rewrite Hd1. }
  change (m_logFilePath s2) with p.
  assert (Fs.content w2 p = Fs.content w p +:+ concat_lines l) as Hc2.
  { unfold Fs.content at 1. by rewrite Hfs, Hf1. }
  logger_simpl. rewrite Hc2. repeat split.
  - by rewrite lookup_insert_eq.
  - intros q Hq. rewrite lookup_insert_ne by done. rewrite Hfs.
    subst w1. by apply files_append_all_ne.
  - rewrite Hce, Hex. subst w1. by rewrite He1.
Qed.

Lemma rotate_refused_keeps_log_witness :
  files (rotate sample_logger_pending sample_world_nobak).2
    !! "./logs/app.log" =
    Some (Fs.content sample_world_nobak "./logs/app.log" +:+
          concat_lines (m_messageBuffer sample_logger_pending))
  ∧ m_currentFileSize (rotate sample_logger_pending sample_world_nobak).1
    = 0.
Proof.
  destruct (rotate_refused_keeps_log sample_logger_pending
              sample_world_nobak) as (H1 & _ & _ & _ & H5 & _);
    try (vm_compute; reflexivity).
  exact (conj H1 H5).
Defined.

(* ===================================================================== *)
(** * What [init] leaves behind *)
(* ===================================================================== *)

Section InitSteps.

Lemma createLogDirectory_frame (w : World) (filePath : string) :
  files (createLogDirectory w filePath).2 = files w
  ∧ readonly (createLogDirectory w filePath).2 = readonly w
  ∧ cout (createLogDirectory w filePath).2 = cout w
  ∧ ((createLogDirectory w filePath).1 = true →
     cerr (createLogDirectory w filePath).2 = cerr w)
  ∧ ((createLogDirectory w filePath).1 = false →
     cerr (createLogDirectory w filePath).2 =
     cerr w +:+ "Error creating directory: " +:+
     "filesystem error: cannot create directories" +:+ newline).
Proof.
  unfold createLogDirectory.
  destruct (String.eqb _ ""); [done|].
  destruct (Fs.exists_ w _) eqn:Hex; cbn [negb]; [done|].
  unfold Fs.create_directories.
  apply orb_false_elim in Hex as [Hf Hd]. rewrite Hd, Hf.
  destruct (Fs.writable w _); by cbn.
Qed.

(** [openLogFile] returns true on a closed stream only by opening it. *)
Lemma openLogFile_true_inv (s s2 : Logger) (w w2 : World) :
  is_open (m_logFile s) = false →
  openLogFile s w = (true, s2, w2) →
  s2 = with_currentFileSize
         (wrap_size_t (size (Fs.content w (m_logFilePath s))))
         (with_logFile (mk_ofstream true (m_logFilePath s) true) s)
  ∧ w2 = with_files
           (<[m_logFilePath s := Fs.content w (m_logFilePath s)]> (files w))
           w.
Proof.
  intros Ho H.
  destruct (Fs.writable w (m_logFilePath s) &&
            negb (Fs.is_dir w (m_logFilePath s))) eqn:E.
  - apply andb_prop in E as [Hw Hd]. apply negb_true_iff in Hd.
    rewrite openLogFile_closed_ok in H by done. by simplify_eq.
  - unfold openLogFile, Ofstream.open, Fs.open in H.
    rewrite Ho, E in H. cbn in H. rewrite Ho in H. cbn in H.
    rewrite E in H. cbn in H. rewrite Ho in H. cbn in H. discriminate H.
Qed.

(** [openLogFile] returns false only where it changes nothing outside of
    the stream. *)
Lemma openLogFile_false_inv (s s2 : Logger) (w w2 : World) :
  openLogFile s w = (false, s2, w2) →
  w2 = w ∧ is_open (m_logFile s2) = false ∧ same_settings s s2
  ∧ m_messageBuffer s2 = m_messageBuffer s.
Proof.
  intros H.
  destruct (is_open (m_logFile s)) eqn:Ho.
  { rewrite openLogFile_open in H by done. discriminate H. }
  destruct (Fs.writable w (m_logFilePath s) &&
            negb (Fs.is_dir w (m_logFilePath s))) eqn:E.
  - apply andb_prop in E as [Hw Hd]. apply negb_true_iff in Hd.
    rewrite openLogFile_closed_ok in H by done. discriminate H.
  - unfold openLogFile, Ofstream.open, Fs.open in H.
    rewrite Ho, E in H. cbn in H. rewrite Ho in H. cbn in H.
    rewrite E in H. cbn in H. rewrite Ho in H. cbn in H.
    simplify_eq. unfold same_settings, Ofstream.set_fail. logger_simpl.
    by rewrite Ho.
Qed.

End InitSteps.

(** X6.  A first [init] that returns true, on a logger whose stream is
    closed: the initialization marker is appended to what the log file held
    (the file is never truncated), no other file changes, nothing is printed,
    the stream is open on the given path, the logger is initialized, the
    pending sequence is untouched, and the running size is the size of the
    file as long as that is representable. *)
Theorem init_appends_marker (s s' : Logger) (w w' : World) (now : wall_clock)
    (path : string) (level : LogLevel) (console : bool) (maxFileSize : Z) :
  m_initialized s = false →
  is_open (m_logFile s) = false →
  init s w now path level console maxFileSize = (true, s', w') →
  Fs.content w' path = Fs.content w path +:+ init_marker now
  ∧ (∀ q, q ≠ path → files w' !! q = files w !! q)
  ∧ cout w' = cout w ∧ cerr w' = cerr w
  ∧ m_logFile s' = mk_ofstream true path true
  ∧ m_initialized s' = true
  ∧ m_messageBuffer s' = m_messageBuffer s
  ∧ (size (Fs.content w' path) < 2 ^ SIZE_WIDTH →
     m_currentFileSize s' = size (Fs.content w' path)).
Proof.
  intros Hi Ho. unfold init. rewrite Hi.
  pose proof (createLogDirectory_frame w path)
    as (Hf1 & Hr1 & Hc1 & He1 & _).
  cbn [with_config m_logFilePath].
  destruct (createLogDirectory w path) as [dir_ok w1]. cbn in *.
  destruct dir_ok; cbn [negb]; [|discriminate]. specialize (He1 eq_refl).
  set (s1 := with_config path level console maxFileSize s).
  destruct (openLogFile s1 w1) as [[file_ok s2] w2] eqn:Hopen.
  destruct file_ok; cbn [negb]; [|discriminate].
  apply openLogFile_true_inv in Hopen as [-> ->]; [|done].
  change (m_logFilePath s1) with path.
  assert (Fs.content w1 path = Fs.content w path) as Hcont.
  { unfold Fs.content. by rewrite Hf1. }
  rewrite Hcont. fold (init_marker now).
  unfold Ofstream.insert, Ofstream.tellp, Ofstream.flush. logger_simpl.
  cbn [negb andb].
  set (w2 := mk_World (<[path:=Fs.content w path]> (files w1)) _ _ _ _).
  assert (Fs.content w2 path = Fs.content w path) as Hc2.
  { unfold Fs.content at 1. subst w2. cbn [files].
    by rewrite lookup_insert_eq. }
  rewrite Hc2. intros [= <- <-]. logger_simpl.
  rewrite content_append_eq, Hc2. repeat split; try done.
  - intros q Hq. rewrite files_append_ne by done. subst w2. cbn [files].
    rewrite lookup_insert_ne by done. by rewrite Hf1.
  - intros Hsz. unfold size in *. rewrite str_length_app in Hsz.
    unfold wrap_size_t. rewrite Z.add_mod_idemp_l by done.
    rewrite str_length_app. rewrite Z.mod_small; lia.
Qed.

Lemma init_appends_marker_witness :
  Fs.content sample_world "./logs/app.log" =
    Fs.content world0 "./logs/app.log" +:+ init_marker sample_wall
  ∧ m_initialized sample_logger = true.
Proof.
  destruct (init_appends_marker (Logger_new 0) sample_logger world0
              sample_world sample_wall "./logs/app.log" INFO true
              MAX_FILE_SIZE) as (H1 & _ & _ & _ & _ & H6 & _);
    try (vm_compute; reflexivity).
  exact (conj H1 H6).
Defined.

(** X7.  An [init] that returns false: the logger stays uninitialized, so
    every later call of [log] is dropped; no file was created or changed and
    the pending sequence is untouched; the stream is closed; a diagnostic was
    printed; but the level and the path, size and console settings have
    already been replaced by the arguments. *)
Theorem init_failure_leaves_uninitialized (s s' : Logger) (w w' : World)
    (now : wall_clock) (path : string) (level : LogLevel) (console : bool)
    (maxFileSize : Z) :
  is_open (m_logFile s) = false →
  init s w now path level console maxFileSize = (false, s', w') →
  m_initialized s' = false
  ∧ (∀ clk lvl e, log s' w' clk lvl e = (s', w'))
  ∧ files w' = files w
  ∧ is_open (m_logFile s') = false
  ∧ m_messageBuffer s' = m_messageBuffer s
  ∧ (∃ diagnostic, diagnostic ≠ "" ∧ cerr w' = cerr w +:+ diagnostic)
  ∧ m_currentLevel s' = level ∧ m_logFilePath s' = path
  ∧ m_maxFileSize s' = maxFileSize ∧ m_consoleOutput s' = console.
Proof.
  intros Ho. unfold init.
  destruct (m_initialized s) eqn:Hi; [discriminate|].
  cbn [with_config m_logFilePath].
  assert (∀ s1 w1, m_initialized s1 = false →
            ∀ clk lvl e, log s1 w1 clk lvl e = (s1, w1)) as Hdrop.
  { intros s1 w1 H1 clk lvl e. unfold log, filtered. by rewrite H1. }
  pose proof (createLogDirectory_frame w path)
    as (Hf1 & _ & _ & Hok & Hfail).
  destruct (createLogDirectory w path) as [dir_ok w1]. cbn in *.
  destruct dir_ok; cbn [negb].
  - specialize (Hok eq_refl).
    set (s1 := with_config path level console maxFileSize s).
    destruct (openLogFile s1 w1) as [[file_ok s2] w2] eqn:Hopen.
    destruct file_ok; cbn [negb];
      [destruct (Ofstream.insert _ _ _); discriminate|].
    apply openLogFile_false_inv in Hopen
      as (-> & Hc & (Hl & Hp & Hm & Hin & Hco & _) & Hb).
    intros [= <- <-]. logger_simpl.
    assert (m_initialized s2 = false) as Hi2 by (by rewrite Hin).
    repeat split; try done; try (by apply Hdrop).
    eexists. split; [|by rewrite Hok]. done.
  - specialize (Hfail eq_refl).
    intros [= <- <-]. logger_simpl.
    repeat split; try done; try (by apply Hdrop).
    eexists. split; [|rewrite Hfail, str_app_assoc; reflexivity]. done.
Qed.

Lemma init_failure_leaves_uninitialized_witness :
  let w := mk_World ∅ ∅ {["./logs"]} "" "" in
  let r := init (Logger_new 0) w sample_wall "./logs/app.log" DEBUG false
             200 in
  m_initialized r.1.2 = false ∧ files r.2 = files w
  ∧ m_currentLevel r.1.2 = DEBUG.
Proof.
  intros w r.
  destruct (init_failure_leaves_uninitialized (Logger_new 0) r.1.2 w r.2
              sample_wall "./logs/app.log" DEBUG false 200)
    as (H1 & _ & H3 & _ & _ & _ & H7 & _);
    try (vm_compute; reflexivity).
  exact (conj H1 (conj H3 H7)).
Defined.

(* ===================================================================== *)
(** * What [log] keeps *)
(* ===================================================================== *)

Section LogKeeps.

Lemma same_settings_refl (s : Logger) : same_settings s s.
Proof. by unfold same_settings. Qed.

Lemma same_settings_trans (s1 s2 s3 : Logger) :
  same_settings s1 s2 → same_settings s2 s3 → same_settings s1 s3.
Proof.
  unfold same_settings. intros (?&?&?&?&?&?) (?&?&?&?&?&?).
  repeat split; congruence.
Qed.

Lemma openLogFile_settings (s : Logger) (w : World) :
  same_settings s (openLogFile s w).1.2
  ∧ m_messageBuffer (openLogFile s w).1.2 = m_messageBuffer s.
Proof.
  destruct (openLogFile_config s w) as (?&?&?&?&?&?&?).
  by unfold same_settings.
Qed.

Lemma flushBuffer_settings (s : Logger) (w : World) :
  same_settings s (flushBuffer s w).1
  ∧ m_messageBuffer (flushBuffer s w).1 = [].
Proof.
  unfold flushBuffer, same_settings.
  by destruct (write_messages _ _ _).
Qed.

Lemma rotate_settings (s : Logger) (w : World) :
  same_settings s (rotate s w).1 ∧ m_messageBuffer (rotate s w).1 = [].
Proof.
  unfold rotate. destruct (write_messages _ _ _) as [f w1].
  match goal with
  | |- context [openLogFile ?a ?b] =>
      pose proof (openLogFile_settings a b) as [Hs Hb];
      destruct (openLogFile a b) as [[ok s3] w3]
  end.
  cbn in Hs, Hb. unfold same_settings in *. logger_simpl.
  destruct Hs as (-> & -> & -> & -> & -> & ->). rewrite Hb.
  unfold closeLogFile. by destruct (is_open _).
Qed.

Lemma checkRotation_settings (s : Logger) (w : World) (n : Z) :
  same_settings s (checkRotation s w n).1
  ∧ (length (m_messageBuffer (checkRotation s w n).1)
     ≤ length (m_messageBuffer s))%nat.
Proof.
  unfold checkRotation. destruct (shouldRotate _ _ _).
  - destruct (rotate_settings s w) as [Hs ->]. split; [done|cbn; lia].
  - split; [apply same_settings_refl|done].
Qed.

Lemma log_locked_settings (s : Logger) (w : World) (steady : Z)
    (level : LogLevel) (ts buffer : string) :
  same_settings s (log_locked s w steady level ts buffer).1
  ∧ ((length (m_messageBuffer s) < Z.to_nat LOG_BUFFER_CAPACITY)%nat →
     (length (m_messageBuffer (log_locked s w steady level ts buffer).1)
      < Z.to_nat LOG_BUFFER_CAPACITY)%nat).
Proof.
  unfold log_locked.
  match goal with
  | |- context [openLogFile ?a ?b] =>
      pose proof (openLogFile_settings a b) as [Hs Hb];
      destruct (openLogFile a b) as [[ok s2] w2]
  end.
  cbn in Hs, Hb. destruct ok; cbn [negb fst]; [|by rewrite Hb].
  match goal with
  | |- context [checkRotation ?a ?b ?n] =>
      pose proof (checkRotation_settings a b n) as [Hs3 Hb3];
      destruct (checkRotation a b n) as [s3 w3]
  end.
  cbn in Hs3, Hb3.
  pose proof (same_settings_trans _ _ _ Hs Hs3) as Hs'.
  match goal with
  | |- context [if ?c then _ else _] => destruct c eqn:Hc
  end.
  - match goal with
    | |- context [flushBuffer ?a ?b] =>
        destruct (flushBuffer_settings a b) as [Hf ->]
    end.
    split; [|intros _; cbn; unfold LOG_BUFFER_CAPACITY; lia].
    eapply same_settings_trans; [|exact Hf].
    unfold same_settings in *. by logger_simpl.
  - split; [unfold same_settings in *; by logger_simpl|].
    intros _. apply orb_false_elim in Hc as [Hc _].
    unfold with_currentFileSize, with_messageBuffer in *.
    cbn [m_messageBuffer fst] in *.
    rewrite Z.geb_leb in Hc. apply Z.leb_gt in Hc.
    unfold LOG_BUFFER_CAPACITY in *. lia.
Qed.

End LogKeeps.

(** X8.  [log] never changes a setting: whatever the call and whatever
    happens to the file, the threshold, the path, the maximum file size, the
    initialization flag, the console flag and the last flush time are after
    the call what they were before. *)
Theorem log_keeps_settings (s : Logger) (w : World) (clk : clocks)
    (level : LogLevel) (e : string) :
  m_currentLevel (log s w clk level e).1 = m_currentLevel s
  ∧ m_logFilePath (log s w clk level e).1 = m_logFilePath s
  ∧ m_maxFileSize (log s w clk level e).1 = m_maxFileSize s
  ∧ m_initialized (log s w clk level e).1 = m_initialized s
  ∧ m_consoleOutput (log s w clk level e).1 = m_consoleOutput s
  ∧ m_lastFlushTime (log s w clk level e).1 = m_lastFlushTime s.
Proof.
  unfold log. destruct (filtered s level); [done|].
  apply log_locked_settings.
Qed.

(** X9.  The pending sequence stays below the capacity of 100 lines: if it
    holds fewer than 100 lines before a call of [log], it holds fewer than
    100 lines after it. *)
Theorem log_keeps_buffer_below_capacity (s : Logger) (w : World)
    (clk : clocks) (level : LogLevel) (e : string) :
  (length (m_messageBuffer s) < 100)%nat →
  (length (m_messageBuffer (log s w clk level e).1) < 100)%nat.
Proof.
  intros H. unfold log. destruct (filtered s level); [done|].
  by apply log_locked_settings.
Qed.

Lemma log_keeps_buffer_below_capacity_witness :
  (length (m_messageBuffer
             (log sample_logger_pending sample_world sample_clocks INFO
                "third").1) < 100)%nat.
Proof.
  apply (log_keeps_buffer_below_capacity sample_logger_pending sample_world
           sample_clocks INFO "third").
  vm_compute. lia.
Defined.

(* ===================================================================== *)
(** * What one call of [log] does to the log *)
(* ===================================================================== *)

(** X10.  In the steady state (stream open on the log file, running size at
    least 298 bytes below the maximum) an admitted call of [log] adds exactly
    its line at the end of the log, that is of the file followed by the
    pending lines, and leaves the logger in the steady state. *)
Theorem log_appends_its_line (s : Logger) (w : World) (clk : clocks)
    (level : LogLevel) (e : string) :
  steady_state s →
  filtered s level = false →
  log_text (log s w clk level e).1 (log s w clk level e).2 =
    log_text s w +:+
    logEntry_of (getTimestamp TIME_STAMP_BUFFER (wall clk)) level
      (CStr.snprintf m_bufferSize e)
  ∧ steady_state (log s w clk level e).1.
Proof.
  intros Hs Hf. unfold log. rewrite Hf.
  destruct (log_locked_appends s w (steady_now clk) level
              (getTimestamp TIME_STAMP_BUFFER (wall clk))
              (CStr.snprintf m_bufferSize e) Hs) as [H1 H2]; [|done].
  by eapply passage_line_size.
Qed.

Lemma log_appends_its_line_witness :
  log_text (log sample_logger_pending sample_world sample_clocks INFO
              "third").1
    (log sample_logger_pending sample_world sample_clocks INFO "third").2 =
  log_text sample_logger_pending sample_world +:+
  logEntry_of (getTimestamp TIME_STAMP_BUFFER sample_wall) INFO
    (CStr.snprintf m_bufferSize "third").
Proof.
  apply (log_appends_its_line sample_logger_pending sample_world
           sample_clocks INFO "third").
  - unfold steady_state. vm_compute. repeat split; discriminate.
  - reflexivity.
Defined.

(** X11.  When [log] writes.  In the steady state an admitted call drains
    exactly when the line it queues is the 100th pending line or at least
    1000 ms have passed on the steady clock since [m_lastFlushTime]: then the
    file holds the whole log and nothing is pending.  Otherwise the file
    system is left untouched and the line is the last of the pending
    sequence. *)
Theorem log_drains_when_due (s : Logger) (w : World) (clk : clocks)
    (level : LogLevel) (e : string) :
  steady_state s →
  filtered s level = false →
  let line :=
    logEntry_of (getTimestamp TIME_STAMP_BUFFER (wall clk)) level
      (CStr.snprintf m_bufferSize e) in
  let elapsedMs := to_milliseconds (steady_now clk - m_lastFlushTime s) in
  let s' := (log s w clk level e).1 in
  let w' := (log s w clk level e).2 in
  (99 ≤ Z.of_nat (length (m_messageBuffer s)) ∨ 1000 ≤ elapsedMs →
   m_messageBuffer s' = []
   ∧ Fs.content w' (m_logFilePath s) = log_text s w +:+ line)
  ∧ (Z.of_nat (length (m_messageBuffer s)) < 99 ∧ elapsedMs < 1000 →
     m_messageBuffer s' = (m_messageBuffer s ++ [line])%list
     ∧ files w' = files w).
Proof.
  intros (Ho & Hg & Ht & Hc & Hm & Hx) Hf line elapsedMs s' w'.
  subst s' w'. unfold log. rewrite Hf. unfold log_locked. fold line.
  set (w1 := if m_consoleOutput s then write_cout line w else w).
  assert (files w1 = files w) as Hf1.
  { subst w1. by destruct (m_consoleOutput s). }
  rewrite openLogFile_open by done. cbn [negb].
  assert (size line ≤ 298) as Hsz by (by eapply passage_line_size).
  assert (0 ≤ size line) as Hpos by (unfold size; lia).
  assert (shouldRotate (m_currentFileSize s) (size line) (m_maxFileSize s)
          = false) as Hrot.
  { unfold shouldRotate, wrap_size_t. rewrite Z.mod_small by lia.
    rewrite Z.gtb_ltb. apply Z.ltb_ge. lia. }
  unfold checkRotation. rewrite Hrot. logger_simpl.
  fold elapsedMs. rewrite length_app. cbn [length].
  unfold LOG_BUFFER_CAPACITY, FLUSH_INTERVAL_MS.
  assert (Fs.content w1 (m_logFilePath s) = Fs.content w (m_logFilePath s))
    as Hc1.
  { unfold Fs.content. by rewrite Hf1. }
  split.
  - intros Hdue.
    assert ((Z.of_nat (length (m_messageBuffer s) + 1) >=? 100)
            || (elapsedMs >=? 1000) = true) as ->.
    { apply orb_true_iff. rewrite !Z.geb_leb, !Z.leb_le. lia. }
    unfold flushBuffer. logger_simpl.
    rewrite write_messages_open by done. logger_simpl.
    split; [done|].
    rewrite Ht, content_append_all, Hc1, concat_lines_app.
    unfold log_text. cbn [concat_lines foldr].
    by rewrite !str_app_nil_r, str_app_assoc.
  - intros [Hl He].
    assert ((Z.of_nat (length (m_messageBuffer s) + 1) >=? 100)
            || (elapsedMs >=? 1000) = false) as ->.
    { apply orb_false_iff. rewrite !Z.geb_leb, !Z.leb_gt. lia. }
    by logger_simpl.
Qed.

Lemma log_drains_when_due_witness :
  m_messageBuffer
    (log sample_logger_pending sample_world sample_clocks INFO "third").1 =
  (m_messageBuffer sample_logger_pending ++
   [logEntry_of (getTimestamp TIME_STAMP_BUFFER sample_wall) INFO
      (CStr.snprintf m_bufferSize "third")])%list
  ∧ files (log sample_logger_pending sample_world sample_clocks INFO
             "third").2 = files sample_world.
Proof.
  refine (proj2 (log_drains_when_due sample_logger_pending sample_world
                   sample_clocks INFO "third" _ _) _).
  - unfold steady_state. vm_compute. repeat split; discriminate.
  - reflexivity.
  - vm_compute. split; reflexivity.
Defined.

(** X12.  The console.  A call of [log] adds to the standard output its
    composed line if the call is admitted and the console flag is set, and
    nothing otherwise; this does not depend on what happens to the file. *)
Theorem log_console_output (s : Logger) (w : World) (clk : clocks)
    (level : LogLevel) (e : string) :
  cout (log s w clk level e).2 =
  cout w +:+
  (if negb (filtered s level) && m_consoleOutput s
   then logEntry_of (getTimestamp TIME_STAMP_BUFFER (wall clk)) level
          (CStr.snprintf m_bufferSize e)
   else "").
Proof.
  unfold log. destruct (filtered s level); cbn [negb andb].
  - by rewrite str_app_nil_r.
  - rewrite log_locked_cout. destruct (m_consoleOutput s); [done|].
    by rewrite str_app_nil_r.
Qed.

(** X13.  The running size under [log].  While the stream is open and the
    call does not rotate, [log] leaves [m_currentFileSize] as it is, whatever
    the size of the line it queues or writes. *)
Theorem log_keeps_running_size (s : Logger) (w : World) (clk : clocks)
    (level : LogLevel) (e : string) :
  is_open (m_logFile s) = true →
  0 ≤ m_currentFileSize s < 2 ^ SIZE_WIDTH →
  shouldRotate (m_currentFileSize s)
    (size (logEntry_of (getTimestamp TIME_STAMP_BUFFER (wall clk)) level
             (CStr.snprintf m_bufferSize e)))
    (m_maxFileSize s) = false →
  m_currentFileSize (log s w clk level e).1 = m_currentFileSize s.
Proof.
  intros Ho Hc Hrot. unfold log. destruct (filtered s level); [done|].
  unfold log_locked. rewrite openLogFile_open by done. cbn [negb].
  unfold checkRotation. rewrite Hrot. logger_simpl.
  assert (wrap_size_t (m_currentFileSize s + size (moved_from
            (logEntry_of (getTimestamp TIME_STAMP_BUFFER (wall clk)) level
               (CStr.snprintf m_bufferSize e)))) = m_currentFileSize s)
    as ->.
  { unfold wrap_size_t, moved_from, size. cbn [String.length].
    rewrite Z.add_0_r. by apply Z.mod_small. }
  match goal with
  | |- context [if ?c then _ else _] => destruct c
  end; [|done].
  unfold flushBuffer. logger_simpl. by destruct (write_messages _ _ _).
Qed.

Lemma log_keeps_running_size_witness :
  m_currentFileSize
    (log sample_logger sample_world sample_clocks INFO (long_text 200)).1 =
  m_currentFileSize sample_logger.
Proof.
  apply (log_keeps_running_size sample_logger sample_world sample_clocks
           INFO (long_text 200)).
  - reflexivity.
  - vm_compute. split; [discriminate|reflexivity].
  - vm_compute. reflexivity.
Defined.

(* ===================================================================== *)
(** * The destructor *)
(* ===================================================================== *)

(** X14.  The destructor of an initialized logger whose stream is open and
    in good state writes the pending lines, in order, and then the shutdown
    marker behind the content of the file, touches no other file, closes the
    stream and leaves nothing pending.  On a logger that was never
    initialized it does nothing. *)
Theorem destructor_drains_and_closes (s : Logger) (w : World)
    (now : wall_clock) :
  (m_initialized s = true →
   is_open (m_logFile s) = true →
   good (m_logFile s) = true →
   let p := target (m_logFile s) in
   let r := Logger_delete s w now in
   Fs.content r.2 p =
     Fs.content w p +:+ concat_lines (m_messageBuffer s) +:+
     shutdown_marker now
   ∧ (∀ q, q ≠ p → files r.2 !! q = files w !! q)
   ∧ is_open (m_logFile r.1) = false
   ∧ m_messageBuffer r.1 = [])
  ∧ (m_initialized s = false → Logger_delete s w now = (s, w)).
Proof.
  split.
  - intros Hi Ho Hg p r. subst r. unfold Logger_delete. rewrite Hi.
    unfold flushBuffer. rewrite write_messages_open by done.
    fold (shutdown_marker now). fold p.
    unfold Ofstream.insert, Ofstream.flush. logger_simpl.
    rewrite Hg, Ho. cbn [negb]. fold p. unfold closeLogFile. logger_simpl.
    rewrite Ho. logger_simpl. unfold Ofstream.close. rewrite Ho.
    repeat split.
    + rewrite content_append_eq, content_append_all.
      by rewrite str_app_assoc.
    + intros q Hq. rewrite files_append_ne by done.
      by apply files_append_all_ne.
  - intros Hi. unfold Logger_delete. by rewrite Hi.
Qed.

Lemma destructor_drains_and_closes_witness :
  Fs.content (Logger_delete sample_logger_pending sample_world later_wall).2
    "./logs/app.log" =
  Fs.content sample_world "./logs/app.log" +:+
  concat_lines (m_messageBuffer sample_logger_pending) +:+
  shutdown_marker later_wall.
Proof.
  apply (proj1 (destructor_drains_and_closes sample_logger_pending
                  sample_world later_wall)); reflexivity.
Defined.

(* ===================================================================== *)
(** * The shape of the timestamp *)
(* ===================================================================== *)

Section TimestampShape.

Lemma all_below_spec (bound : nat) (P : Z → bool) (n : Z) :
  all_below bound P = true → 0 ≤ n < Z.of_nat bound → P n = true.
Proof.
  unfold all_below. intros H Hn.
  rewrite forallb_forall in H. apply H.
  apply list_elem_of_In, list_elem_of_fmap. exists (Z.to_nat n).
  split; [lia|]. apply list_elem_of_In, in_seq. lia.
Qed.

Lemma prints_on_spec (width : nat) (n : Z) :
  prints_on width n = true →
  String.length (CStr.fmt_d0 width n) = width
  ∧ CStr.c_str (CStr.fmt_d0 width n) = CStr.fmt_d0 width n.
Proof.
  unfold prints_on. intros [H1 H2]%andb_prop.
  split; [by apply Nat.eqb_eq|by apply String.eqb_eq].
Qed.

Lemma two_digits (n : Z) : 0 ≤ n < 100 → prints_on 2 n = true.
Proof.
  apply (all_below_spec 100 (prints_on 2)). vm_compute. reflexivity.
Qed.

Lemma three_digits (n : Z) : 0 ≤ n < 1000 → prints_on 3 n = true.
Proof.
  apply (all_below_spec 1000 (prints_on 3)). vm_compute. reflexivity.
Qed.

Lemma four_digits (n : Z) : 0 ≤ n < 10000 → prints_on 4 n = true.
Proof.
  apply (all_below_spec (100 * 100) (prints_on 4)). vm_compute. reflexivity.
Qed.

Lemma c_str_app (a b : string) :
  CStr.c_str a = a → CStr.c_str (a +:+ b) = a +:+ CStr.c_str b.
Proof.
  induction a as [|c a IH]; [done|]. rewrite str_app_cons.
  cbn [CStr.c_str]. destruct (Ascii.eqb c Ascii.zero); [done|].
  intros [= H]. by rewrite (IH H).
Qed.

Lemma now_ms_range (ns : Z) : 0 ≤ ns → 0 ≤ now_ms ns < 1000.
Proof.
  intros H. unfold now_ms, to_microseconds.
  apply Z.rem_bound_pos; [|lia]. apply Z.quot_pos; lia.
Qed.

End TimestampShape.

(** X15.  For a calendar time and a clock reading not before the epoch,
    [getTimestamp] fills its buffer with exactly 23 characters,
    [YYYY-MM-DD HH:MM:SS.fff], each field on its fixed width: the 32-byte
    buffer of [log] cuts nothing off, and the 64-byte buffer of [init]
    receives the same text.  The fraction is a number from 0 to 999. *)
Theorem getTimestamp_shape (now : wall_clock) :
  calendar_tm (local_time now) →
  0 ≤ since_epoch_ns now →
  let t := local_time now in
  getTimestamp TIME_STAMP_BUFFER now =
    CStr.fmt_d0 4 (tm_year t + 1900) +:+ "-" +:+
    CStr.fmt_d0 2 (tm_mon t + 1) +:+ "-" +:+
    CStr.fmt_d0 2 (tm_mday t) +:+ " " +:+
    CStr.fmt_d0 2 (tm_hour t) +:+ ":" +:+
    CStr.fmt_d0 2 (tm_min t) +:+ ":" +:+
    CStr.fmt_d0 2 (tm_sec t) +:+ "." +:+
    CStr.fmt_d0 3 (now_ms (since_epoch_ns now))
  ∧ String.length (CStr.fmt_d0 4 (tm_year t + 1900)) = 4%nat
  ∧ String.length (CStr.fmt_d0 2 (tm_mon t + 1)) = 2%nat
  ∧ String.length (CStr.fmt_d0 2 (tm_mday t)) = 2%nat
  ∧ String.length (CStr.fmt_d0 2 (tm_hour t)) = 2%nat
  ∧ String.length (CStr.fmt_d0 2 (tm_min t)) = 2%nat
  ∧ String.length (CStr.fmt_d0 2 (tm_sec t)) = 2%nat
  ∧ String.length (CStr.fmt_d0 3 (now_ms (since_epoch_ns now))) = 3%nat
  ∧ String.length (getTimestamp TIME_STAMP_BUFFER now) = 23%nat
  ∧ getTimestamp 64 now = getTimestamp TIME_STAMP_BUFFER now
  ∧ 0 ≤ now_ms (since_epoch_ns now) < 1000.
Proof.
  intros (Hy & Hmo & Hd & Hh & Hmi & Hs) Hns t.
  pose proof (now_ms_range _ Hns) as Hms.
  destruct (prints_on_spec 4 (tm_year t + 1900)) as [Ly Cy];
    [apply four_digits; subst t; lia|].
  destruct (prints_on_spec 2 (tm_mon t + 1)) as [Lmo Cmo];
    [apply two_digits; subst t; lia|].
  destruct (prints_on_spec 2 (tm_mday t)) as [Ld Cd];
    [apply two_digits; subst t; lia|].
  destruct (prints_on_spec 2 (tm_hour t)) as [Lh Ch];
    [apply two_digits; subst t; lia|].
  destruct (prints_on_spec 2 (tm_min t)) as [Lmi Cmi];
    [apply two_digits; subst t; lia|].
  destruct (prints_on_spec 2 (tm_sec t)) as [Ls Cs];
    [apply two_digits; subst t; lia|].
  destruct (prints_on_spec 3 (now_ms (since_epoch_ns now))) as [Lf Cf];
    [by apply three_digits|].
  set (e := CStr.fmt_d0 4 (tm_year t + 1900) +:+ _).
  assert (String.length e = 23%nat) as Hlen.
  { subst e. rewrite !str_length_app, Ly, Lmo, Ld, Lh, Lmi, Ls, Lf.
    reflexivity. }
  assert (CStr.c_str e = e) as Hc.
  { subst e.
    do 12 (rewrite c_str_app; [|done]).
    by rewrite Cf. }
  assert (∀ sz, 24 ≤ sz → CStr.snprintf sz e = e) as Hfit.
  { intros sz Hsz. unfold CStr.snprintf. rewrite take_all by lia. exact Hc. }
  assert (getTimestamp TIME_STAMP_BUFFER now = e) as H32.
  { unfold getTimestamp. fold t. fold e. apply Hfit.
    unfold TIME_STAMP_BUFFER. lia. }
  assert (getTimestamp 64 now = e) as H64.
  { unfold getTimestamp. fold t. fold e. apply Hfit. lia. }
  rewrite H32, H64. repeat split; try done; lia.
Qed.

Lemma getTimestamp_shape_witness :
  String.length (getTimestamp TIME_STAMP_BUFFER sample_wall) = 23%nat.
Proof.
  destruct (getTimestamp_shape sample_wall)
    as (_ & _ & _ & _ & _ & _ & _ & _ & H & _).
  - unfold calendar_tm. cbn. lia.
  - cbn. lia.
  - exact H.
Defined.

(** X16.  The level tags are five characters wide, none is the fallback
    [?????] of the switch, and two levels have the same tag only if they are
    the same level. *)
Theorem logLevelToString_tags (a b : LogLevel) :
  String.length (logLevelToString a) = 5%nat
  ∧ String.eqb (logLevelToString a) "?????" = false
  ∧ String.eqb (logLevelToString a) (logLevelToString b)
    = bool_decide (a = b).
Proof. by destruct a, b. Qed.

(* ===================================================================== *)
(** * The lock *)
(* ===================================================================== *)

Section Lock.

Lemma reachable_inv (c0 c : config) (sch : list action) :
  initial c0 → run sch c0 = Some c → ∃ ps, inv c0 c ps.
Proof.
  intros Hinit Hrun. exact (run_inv c0 sch c0 c [] (inv_initial c0 Hinit) Hrun).
Qed.




End Lock.

(** X17.  Mutual exclusion.  In every configuration that a schedule reaches
    from an initial one, at most one thread stands between [lockMutex()] and
    [unlockMutex()], it is the thread recorded as the owner of the mutex, and
    a thread that has returned from [log], by the guard, after a failed
    [openLogFile] or at the end, does not hold the lock. *)
Theorem lock_is_exclusive (c0 c : config) (sch : list action) :
  initial c0 → run sch c0 = Some c →
  (∀ i j ti tj,
     threads c !! i = Some ti → threads c !! j = Some tj →
     holds_lock (t_pc ti) = true → holds_lock (t_pc tj) = true → i = j)
  ∧ (∀ i t, threads c !! i = Some t →
       (holds_lock (t_pc t) = true ↔ m_logMutex c = Some i))
  ∧ (∀ i t, threads c !! i = Some t → finished (t_pc t) = true →
       m_logMutex c ≠ Some i).
Proof.
  intros Hinit Hrun. destruct (reachable_inv _ _ _ Hinit Hrun) as [ps Hinv].
  assert (∀ i t, threads c !! i = Some t → holds_lock (t_pc t) = true →
            m_logMutex c = Some i) as Hown.
  { intros i t Hi Hl.
    exact (thread_inv_lock _ _ _ _ _ _ _ _ (inv_threads _ _ _ Hinv i t Hi)
             Hl). }
  split; [|split].
  - intros i j ti tj Hi Hj Hli Hlj.
    pose proof (Hown i ti Hi Hli). pose proof (Hown j tj Hj Hlj). congruence.
  - intros i t Hi. split; [by apply Hown|].
    intros Hm. destruct (inv_owner _ _ _ Hinv i Hm) as (t' & Ht' & Hl).
    congruence.
  - intros i t Hi Hf. apply (not_owner _ _ _ _ _ Hinv Hi).
    unfold finished, holds_lock in *. by destruct (t_pc t).
Qed.

Lemma lock_is_exclusive_witness :
  m_logMutex entered = Some 0%nat.
Proof.
  refine (proj1 (proj1 (proj2 (lock_is_exclusive sample_config entered
                                 entering _ _))
                   0%nat (mk_thread INFO "from thread 0"
                            (getTimestamp TIME_STAMP_BUFFER sample_wall)
                            (CStr.snprintf m_bufferSize "from thread 0")
                            "" AtCompose) _) _).
  - split; [reflexivity|].
    intros [|[|i]] t Hi; cbn in Hi; by simplify_eq.
  - vm_compute. reflexivity.
  - vm_compute. reflexivity.
  - reflexivity.
Defined.






(* ===================================================================== *)
(** * The unbuffered logger *)
(* ===================================================================== *)

Section LegacyRotation.

(** The two versions of [rotateLogFile] are the same function of the log
    path. *)
Lemma legacy_rotateLogFile_eq (s : Legacy.Logger) (s' : Logger) (w : World) :
  m_logFilePath s' = Legacy.m_logFilePath s →
  Legacy.rotateLogFile s w = rotateLogFile s' w.
Proof.
  intros H. unfold Legacy.rotateLogFile, rotateLogFile. by rewrite H.
Qed.

(** A logger of the buffered version with the path of [s]. *)
Let buffered (s : Legacy.Logger) : Logger :=
  with_config (Legacy.m_logFilePath s) INFO true 0 (Logger_new 0).

Lemma legacy_open_ok (w : World) (p : string) (mode : Fs.openmode) :
  Fs.writable w p = true → Fs.is_dir w p = false →
  Ofstream.open Ofstream.closed w p mode =
  (mk_ofstream true p true,
   with_files
     (<[p := match mode with
             | Fs.app_out => Fs.content w p
             | Fs.out => ""
             end]> (files w)) w).
Proof.
  intros Hw Hd. unfold Ofstream.open, Fs.open. cbn [is_open Ofstream.closed].
  rewrite Hw, Hd. by destruct mode.
Qed.

Lemma legacy_rotate_allowed (s : Legacy.Logger) (w : World) :
  let p := Legacy.m_logFilePath s in
  let b := Legacy.m_logFilePath s +:+ ".bak" in
  is_Some (files w !! p) →
  Fs.writable w p = true → Fs.writable w b = true →
  Fs.is_dir w p = false → Fs.is_dir w b = false →
  let w' := Legacy.rotateLogFile s w in
  files w' = <[b := Fs.content w p]> (delete p (delete b (files w)))
  ∧ readonly w' = readonly w ∧ Fs.is_dir w' p = false
  ∧ cout w' = cout w ∧ cerr w' = cerr w.
Proof.
  intros p b Hf Hwp Hwb Hdp Hdb w'. subst w'.
  rewrite (legacy_rotateLogFile_eq s (buffered s)) by done.
  by apply (rotateLogFile_ok (buffered s) w).
Qed.

Lemma legacy_rotate_refused (s : Legacy.Logger) (w : World) :
  let p := Legacy.m_logFilePath s in
  let b := Legacy.m_logFilePath s +:+ ".bak" in
  is_Some (files w !! p) →
  Fs.writable w b = false →
  let w' := Legacy.rotateLogFile s w in
  files w' = files w ∧ dirs w' = dirs w ∧ readonly w' = readonly w
  ∧ cout w' = cout w
  ∧ cerr w' =
    (cerr w +:+
     (if Fs.exists_ w b
      then "Failed to remove backup file: Permission denied" +:+ newline
      else "")) +:+
    "Failed to rename log file: Permission denied" +:+ newline.
Proof.
  intros p b Hf Hwb w'. subst w'.
  rewrite (legacy_rotateLogFile_eq s (buffered s)) by done.
  by apply (rotateLogFile_refused (buffered s) w).
Qed.

End LegacyRotation.

(** X20.  The unbuffered [log] writes through.  An admitted call on a path
    that may be written, whose line fits into what is left of the maximum
    file size, appends the line to the log file at once; the file is created
    if it is missing, no other file changes and no diagnostic is printed. *)
Theorem legacy_log_writes_through (s : Legacy.Logger) (w : World)
    (now : wall_clock) (level : LogLevel) (e : string) :
  let p := Legacy.m_logFilePath s in
  let line :=
    Legacy.logEntry_of (Legacy.getTimestamp TIME_STAMP_BUFFER now) level
      (CStr.snprintf m_bufferSize e) in
  Legacy.filtered s level = false →
  Fs.writable w p = true → Fs.is_dir w p = false →
  size (Fs.content w p) + size line ≤ Legacy.m_maxFileSize s →
  Legacy.m_maxFileSize s < 2 ^ SIZE_WIDTH →
  let w' := Legacy.log s w now level e in
  files w' !! p = Some (Fs.content w p +:+ line)
  ∧ (∀ q, q ≠ p → files w' !! q = files w !! q)
  ∧ cerr w' = cerr w
  ∧ cout w' = cout w +:+ (if Legacy.m_consoleOutput s then line else "").
Proof.
  intros p line Hf Hw Hd Hfit Hmax w'. subst w'.
  unfold Legacy.log. rewrite Hf. fold line. fold p.
  set (w1 := if Legacy.m_consoleOutput s then write_cout line w else w).
  assert (files w1 = files w ∧ dirs w1 = dirs w ∧ readonly w1 = readonly w
          ∧ cerr w1 = cerr w
          ∧ cout w1 =
            cout w +:+ (if Legacy.m_consoleOutput s then line else ""))
    as (Hf1 & Hd1 & Hr1 & He1 & Hc1).
  { subst w1. destruct (Legacy.m_consoleOutput s); cbn; [done|].
    by rewrite str_app_nil_r. }
  assert (Fs.content w1 p = Fs.content w p) as Hcont.
  { unfold Fs.content. by rewrite Hf1. }
  rewrite legacy_open_ok.
  2: { unfold Fs.writable in *. by rewrite Hr1. }
  2: { unfold Fs.is_dir in *. by rewrite Hd1. }
  cbn [negb is_open]. rewrite Hcont.
  set (w3 := with_files _ w1).
  assert (Fs.content w3 p = Fs.content w p) as Hc3.
  { unfold Fs.content at 1. subst w3. cbn [files with_files].
    by rewrite lookup_insert_eq. }
  unfold Ofstream.tellp, Ofstream.seekp_end, Ofstream.insert.
  cbn [good is_open target negb andb]. rewrite Hc3.
  assert (0 ≤ size (Fs.content w p) ∧ 0 ≤ size line) as [H1 H2]
    by (unfold size; lia).
  fold (size (Fs.content w p)).
  assert (wrap_size_t (wrap_size_t (size (Fs.content w p)) + size line)
          = size (Fs.content w p) + size line) as ->.
  { unfold wrap_size_t. rewrite Z.add_mod_idemp_l by done.
    apply Z.mod_small. lia. }
  assert ((size (Fs.content w p) + size line >? Legacy.m_maxFileSize s)
          = false) as ->.
  { rewrite Z.gtb_ltb. apply Z.ltb_ge. lia. }
  cbn [snd]. unfold Fs.append. rewrite Hc3. subst w3. logger_simpl.
  repeat split; try done.
  - by rewrite lookup_insert_eq.
  - intros q Hq. rewrite !lookup_insert_ne by done. by rewrite Hf1.
Qed.

Lemma legacy_log_writes_through_witness :
  files (Legacy.log legacy_logger legacy_world sample_wall INFO "hello")
    !! "./logs/app.log" =
  Some (Fs.content legacy_world "./logs/app.log" +:+
        Legacy.logEntry_of (Legacy.getTimestamp TIME_STAMP_BUFFER sample_wall)
          INFO (CStr.snprintf m_bufferSize "hello")).
Proof.
  apply (legacy_log_writes_through legacy_logger legacy_world sample_wall
           INFO "hello"); vm_compute; first [reflexivity|discriminate].
Defined.

(** X21.  The unbuffered [log] at the size limit.  When the line does not
    fit into what is left of the maximum file size, the log file holds the
    new line only after the call.  If the file system allows the rename, the
    earlier content is under the backup name and no diagnostic is printed; if
    nothing may be done at the backup path, the backup is untouched, the
    diagnostic of the rename is printed and the earlier content is lost,
    because the file is reopened without the append mode. *)
Theorem legacy_log_rotates (s : Legacy.Logger) (w : World)
    (now : wall_clock) (level : LogLevel) (e : string) :
  let p := Legacy.m_logFilePath s in
  let b := Legacy.m_logFilePath s +:+ ".bak" in
  let line :=
    Legacy.logEntry_of (Legacy.getTimestamp TIME_STAMP_BUFFER now) level
      (CStr.snprintf m_bufferSize e) in
  Legacy.filtered s level = false →
  Fs.writable w p = true → Fs.is_dir w p = false →
  Legacy.m_maxFileSize s < size (Fs.content w p) + size line →
  size (Fs.content w p) + size line < 2 ^ SIZE_WIDTH →
  let w' := Legacy.log s w now level e in
  files w' !! p = Some line
  ∧ (∀ q, q ≠ p → q ≠ b → files w' !! q = files w !! q)
  ∧ (Fs.writable w b = true → Fs.is_dir w b = false →
     files w' !! b = Some (Fs.content w p) ∧ cerr w' = cerr w)
  ∧ (Fs.writable w b = false →
     files w' !! b = files w !! b
     ∧ cerr w' =
       (cerr w +:+
        (if Fs.exists_ w b
         then "Failed to remove backup file: Permission denied" +:+ newline
         else "")) +:+
       "Failed to rename log file: Permission denied" +:+ newline).
Proof.
  intros p b line Hf Hw Hd Hover Hrep w'. subst w'.
  assert (b ≠ p) as Hne by apply bak_neq.
  unfold Legacy.log. rewrite Hf. fold line. fold p.
  set (w1 := if Legacy.m_consoleOutput s then write_cout line w else w).
  assert (files w1 = files w ∧ dirs w1 = dirs w ∧ readonly w1 = readonly w
          ∧ cerr w1 = cerr w) as (Hf1 & Hd1 & Hr1 & He1).
  { subst w1. by destruct (Legacy.m_consoleOutput s). }
  rewrite legacy_open_ok.
  2: { unfold Fs.writable in *. by rewrite Hr1. }
  2: { unfold Fs.is_dir in *. by rewrite Hd1. }
  cbn [negb is_open].
  assert (Fs.content w1 p = Fs.content w p) as Hcont.
  { unfold Fs.content. by rewrite Hf1. }
  rewrite Hcont.
  set (w3 := with_files _ w1).
  assert (files w3 !! p = Some (Fs.content w p)) as Hf3.
  { subst w3. cbn [files with_files]. by rewrite lookup_insert_eq. }
  assert (Fs.content w3 p = Fs.content w p) as Hc3.
  { unfold Fs.content at 1. by rewrite Hf3. }
  assert (dirs w3 = dirs w ∧ readonly w3 = readonly w ∧ cerr w3 = cerr w)
    as (Hd3 & Hr3 & He3) by (by subst w3).
  assert (∀ q, q ≠ p → files w3 !! q = files w !! q) as Hq3.
  { intros q Hq. subst w3. cbn [files with_files].
    rewrite lookup_insert_ne by done. by rewrite Hf1. }
  unfold Ofstream.tellp, Ofstream.seekp_end.
  cbn [good is_open target negb andb]. rewrite Hc3.
  assert (0 ≤ size (Fs.content w p) ∧ 0 ≤ size line) as [H1 H2]
    by (unfold size; lia).
  fold (size (Fs.content w p)).
  assert (wrap_size_t (wrap_size_t (size (Fs.content w p)) + size line)
          = size (Fs.content w p) + size line) as ->.
  { unfold wrap_size_t. rewrite Z.add_mod_idemp_l by done.
    apply Z.mod_small. lia. }
  assert ((size (Fs.content w p) + size line >? Legacy.m_maxFileSize s)
          = true) as ->.
  { rewrite Z.gtb_ltb. apply Z.ltb_lt. lia. }
  unfold Ofstream.close. cbn [is_open target good].
  assert (Fs.exists_ w3 b = Fs.exists_ w b) as Hex.
  { unfold Fs.exists_, Fs.is_file, Fs.is_dir. rewrite Hd3. f_equal.
    apply bool_decide_ext. rewrite !elem_of_dom. by rewrite Hq3. }
  set (w4 := Legacy.rotateLogFile s w3).
  assert (Fs.writable w4 p = true ∧ Fs.is_dir w4 p = false
          ∧ (∀ q, q ≠ p → q ≠ b → files w4 !! q = files w !! q)
          ∧ (Fs.writable w b = true → Fs.is_dir w b = false →
             files w4 !! b = Some (Fs.content w p) ∧ cerr w4 = cerr w)
          ∧ (Fs.writable w b = false →
             files w4 !! b = files w !! b
             ∧ cerr w4 =
               (cerr w +:+
                (if Fs.exists_ w b
                 then "Failed to remove backup file: Permission denied"
                      +:+ newline
                 else "")) +:+
               "Failed to rename log file: Permission denied" +:+ newline))
    as (Hw4 & Hd4 & Hq4 & Hyes & Hno).
  { destruct (Fs.writable w b) eqn:Hwb.
    - destruct (Fs.is_dir w b) eqn:Hdb.
      + (* the backup path is a directory, which [remove] takes away *)
        subst w4. unfold Legacy.rotateLogFile. cbv zeta. fold b. fold p.
        assert (Fs.exists_ w3 b = true) as ->.
        { rewrite Hex. unfold Fs.exists_. rewrite Hdb. apply orb_true_r. }
        set (w5 := with_dirs (dirs w3 ∖ {[b]})
                     (with_files (delete b (files w3)) w3)).
        assert (Fs.remove w3 b = (None, w5)) as ->.
        { unfold Fs.remove.
          assert (Fs.writable w3 b = true) as ->; [|done].
          unfold Fs.writable in *. by rewrite Hr3. }
        assert (Fs.rename w5 p b =
                (None, with_files (<[b := Fs.content w p]>
                                     (delete p (files w5))) w5)) as ->.
        { unfold Fs.rename.
          assert (files w5 !! p = Some (Fs.content w p)) as ->.
          { subst w5. logger_simpl. by rewrite lookup_delete_ne. }
          assert (Fs.writable w5 p = true) as ->.
          { unfold Fs.writable in *. subst w5. logger_simpl.
            by rewrite Hr3. }
          assert (Fs.writable w5 b = true) as ->.
          { unfold Fs.writable in *. subst w5. logger_simpl.
            by rewrite Hr3. }
          assert (Fs.is_dir w5 b = false) as ->; [|done].
          unfold Fs.is_dir. subst w5. logger_simpl.
          apply bool_decide_eq_false_2.
          rewrite elem_of_difference, elem_of_singleton. tauto. }
        split.
        { unfold Fs.writable in *. subst w5. logger_simpl. by rewrite Hr3. }
        split.
        { unfold Fs.is_dir in *. subst w5. logger_simpl.
          apply bool_decide_eq_false_2. apply bool_decide_eq_false_1 in Hd.
          rewrite elem_of_difference, Hd3. tauto. }
        split; [|split; [done|done]].
        intros q Hq1 Hq2. subst w5. logger_simpl.
        rewrite lookup_insert_ne by done.
        rewrite !lookup_delete_ne by done. by apply Hq3.
      + assert (is_Some (files w3 !! p)) as Hsome by (rewrite Hf3; eauto).
        assert (Fs.writable w3 p = true) as Hw3
          by (unfold Fs.writable in *; by rewrite Hr3).
        assert (Fs.writable w3 b = true) as Hwb3
          by (unfold Fs.writable in *; by rewrite Hr3).
        assert (Fs.is_dir w3 p = false) as Hdp3
          by (unfold Fs.is_dir in *; by rewrite Hd3).
        assert (Fs.is_dir w3 b = false) as Hdb3
          by (unfold Fs.is_dir in *; by rewrite Hd3).
        destruct (legacy_rotate_allowed s w3 Hsome Hw3 Hwb3 Hdp3 Hdb3)
          as (Hfs & Hro & Hdir & _ & Hce).
        fold p in Hfs. fold b in Hfs. fold w4 in Hfs, Hro, Hdir, Hce.
        split; [unfold Fs.writable in *; by rewrite Hro, Hr3|].
        split; [done|]. split; [|split; [|done]].
        * intros q Hq1 Hq2. rewrite Hfs, lookup_insert_ne by done.
          rewrite !lookup_delete_ne by done. by apply Hq3.
        * intros _ _. rewrite Hfs, lookup_insert_eq, Hc3, Hce. done.
    - assert (is_Some (files w3 !! p)) as Hsome by (rewrite Hf3; eauto).
      assert (Fs.writable w3 b = false) as Hwb3
        by (unfold Fs.writable in *; by rewrite Hr3).
      destruct (legacy_rotate_refused s w3 Hsome Hwb3)
        as (Hfs & Hds & Hro & _ & Hce).
      fold w4 in Hfs, Hds, Hro, Hce.
      split; [unfold Fs.writable in *; by rewrite Hro, Hr3|].
      split; [unfold Fs.is_dir in *; by rewrite Hds, Hd3|].
      split; [|split; [done|]].
      + intros q Hq1 Hq2. rewrite Hfs. by apply Hq3.
      + intros _. rewrite Hfs, Hq3 by done. split; [done|].
        rewrite Hce. fold b. by rewrite Hex, He3. }
  unfold Ofstream.open, Fs.open. cbn [is_open]. rewrite Hw4, Hd4.
  cbn [negb andb is_open].
  unfold Ofstream.insert. cbn [good is_open target negb snd].
  unfold Fs.append, Fs.content. logger_simpl.
  rewrite !lookup_insert_eq. cbn [default]. rewrite str_app_nil_l.
  split; [done|]. split.
  { intros q Hq1 Hq2. rewrite !lookup_insert_ne by done. by apply Hq4. }
  split.
  - intros Hwb Hdb. rewrite !lookup_insert_ne by done. by apply Hyes.
  - intros Hwb. rewrite !lookup_insert_ne by done. by apply Hno.
Qed.

Lemma legacy_log_rotates_witness :
  files (Legacy.log legacy_logger legacy_world_nobak sample_wall INFO
           (long_text 60)) !! "./logs/app.log" =
  Some (Legacy.logEntry_of (Legacy.getTimestamp TIME_STAMP_BUFFER sample_wall)
          INFO (CStr.snprintf m_bufferSize (long_text 60))).
Proof.
  apply (legacy_log_rotates legacy_logger legacy_world_nobak sample_wall
           INFO (long_text 60)); vm_compute; reflexivity.
Defined.

(* ===================================================================== *)
(** * From the first call to the destructor *)
(* ===================================================================== *)

Section Session.

(** In the steady state [log] writes to the log file only. *)
Lemma log_locked_frame (s : Logger) (w : World) (st : Z)
    (level : LogLevel) (ts buffer : string) (q : string) :
  steady_state s →
  size (logEntry_of ts level buffer) ≤ 298 →
  q ≠ m_logFilePath s →
  files (log_locked s w st level ts buffer).2 !! q = files w !! q.
Proof.
  intros (Ho & Hg & Ht & Hc & Hm & Hx) Hsz Hq.
  unfold log_locked.
  set (line := logEntry_of ts level buffer) in *.
  set (w1 := if m_consoleOutput s then write_cout line w else w).
  assert (files w1 = files w) as Hf1.
  { subst w1. by destruct (m_consoleOutput s). }
  rewrite openLogFile_open by done. cbn [negb].
  assert (0 ≤ size line) as Hpos by (unfold size; lia).
  assert (shouldRotate (m_currentFileSize s) (size line) (m_maxFileSize s)
          = false) as Hrot.
  { unfold shouldRotate, wrap_size_t. rewrite Z.mod_small by lia.
    rewrite Z.gtb_ltb. apply Z.ltb_ge. lia. }
  unfold checkRotation. rewrite Hrot. logger_simpl.
  match goal with
  | |- context [if ?c then _ else _] => destruct c
  end.
  - unfold flushBuffer. logger_simpl.
    rewrite write_messages_open by done. logger_simpl.
    rewrite Ht, files_append_all_ne by done. by rewrite Hf1.
  - logger_simpl. by rewrite Hf1.
Qed.

Lemma log_each_cons (r : request) (rs : list request) (s : Logger)
    (w : World) :
  log_each (r :: rs) s w =
  log_each rs (log s w (r_clocks r) (r_level r) (r_expansion r)).1
    (log s w (r_clocks r) (r_level r) (r_expansion r)).2.
Proof.
  unfold log_each. cbn [foldl fst snd]. by destruct (log s w _ _ _).
Qed.

(** What one call does in the steady state, rejected or not. *)
Lemma log_steady (s : Logger) (w : World) (r : request) :
  steady_state s →
  let sw := log s w (r_clocks r) (r_level r) (r_expansion r) in
  steady_state sw.1 ∧ same_settings s sw.1
  ∧ log_text sw.1 sw.2 = log_text s w +:+ request_line s r
  ∧ (∀ q, q ≠ m_logFilePath s → files sw.2 !! q = files w !! q).
Proof.
  intros Hs sw. subst sw. unfold log, request_line.
  destruct (filtered s (r_level r)).
  - cbn [fst snd]. rewrite str_app_nil_r.
    split; [done|]. split; [apply same_settings_refl|done].
  - assert (size (logEntry_of
                    (getTimestamp TIME_STAMP_BUFFER (wall (r_clocks r)))
                    (r_level r)
                    (CStr.snprintf m_bufferSize (r_expansion r))) ≤ 298)
      as Hsz by (by eapply passage_line_size).
    destruct (log_locked_appends s w (steady_now (r_clocks r)) (r_level r)
                (getTimestamp TIME_STAMP_BUFFER (wall (r_clocks r)))
                (CStr.snprintf m_bufferSize (r_expansion r)) Hs Hsz)
      as [H1 H2].
    split; [exact H1|]. split; [apply log_locked_settings|].
    split; [exact H2|].
    intros q Hq. by apply log_locked_frame.
Qed.

Lemma log_each_steady (rs : list request) (s : Logger) (w : World) :
  steady_state s →
  steady_state (log_each rs s w).1 ∧ same_settings s (log_each rs s w).1
  ∧ log_text (log_each rs s w).1 (log_each rs s w).2 =
    log_text s w +:+ concat_lines (request_line s <$> rs)
  ∧ (∀ q, q ≠ m_logFilePath s →
       files (log_each rs s w).2 !! q = files w !! q).
Proof.
  revert s w. induction rs as [|r rs IH]; intros s w Hs.
  - cbn. rewrite str_app_nil_r.
    split; [done|]. split; [apply same_settings_refl|done].
  - rewrite log_each_cons.
    destruct (log_steady s w r Hs) as (Hs1 & Hk1 & Ht1 & Hf1).
    set (s1 := (log s w (r_clocks r) (r_level r) (r_expansion r)).1) in *.
    set (w1 := (log s w (r_clocks r) (r_level r) (r_expansion r)).2) in *.
    destruct (IH s1 w1 Hs1) as (Hs2 & Hk2 & Ht2 & Hf2).
    assert (m_logFilePath s1 = m_logFilePath s) as Hp
      by (by destruct Hk1 as (_ & ? & _)).
    assert (request_line s1 <$> rs = request_line s <$> rs) as Hl.
    { apply list_fmap_ext. intros i x _. unfold request_line.
      destruct Hk1 as (H1 & _ & _ & H2 & _).
      by rewrite (filtered_same s s1). }
    split; [exact Hs2|].
    split; [by eapply same_settings_trans|].
    split.
    + rewrite Ht2, Ht1, Hl, fmap_cons, concat_lines_cons.
      by rewrite !str_app_assoc.
    + intros q Hq. rewrite Hf2 by (by rewrite Hp). by apply Hf1.
Qed.

End Session.

(** X22.  Nothing is lost between the first call and the destructor.  On an
    initialized logger in the steady state, any sequence of calls of [log]
    followed by the destructor leaves in the log file what the log held
    before, then the line of every admitted call, in the order of the calls
    and each exactly once, then the shutdown marker.  No other file is
    created or changed, so no backup is made however long the sequence is;
    the stream is closed and nothing is pending. *)
Theorem session_keeps_every_line (rs : list request) (s : Logger)
    (w : World) (now : wall_clock) :
  steady_state s →
  m_initialized s = true →
  let p := m_logFilePath s in
  let r := session rs s w now in
  Fs.content r.2 p =
    log_text s w +:+ concat_lines (request_line s <$> rs) +:+
    shutdown_marker now
  ∧ (∀ q, q ≠ p → files r.2 !! q = files w !! q)
  ∧ is_open (m_logFile r.1) = false
  ∧ m_messageBuffer r.1 = [].
Proof.
  intros Hs Hi p r. subst r. unfold session.
  destruct (log_each_steady rs s w Hs) as (Hs1 & Hk1 & Ht1 & Hf1).
  set (s1 := (log_each rs s w).1) in *.
  set (w1 := (log_each rs s w).2) in *.
  destruct Hs1 as (Ho & Hg & Ht & _).
  destruct Hk1 as (_ & Hp & _ & Hi1 & _).
  fold p in Hf1. unfold log_text in Ht1. rewrite Hp in Ht1, Ht.
  fold p in Ht1, Ht.
  unfold Logger_delete. rewrite Hi1, Hi.
  unfold flushBuffer. rewrite write_messages_open by done.
  fold (shutdown_marker now).
  unfold Ofstream.insert, Ofstream.flush. logger_simpl.
  rewrite Hg, Ho. cbn [negb]. unfold closeLogFile. logger_simpl.
  rewrite Ho. logger_simpl. unfold Ofstream.close. rewrite Ho, Ht.
  logger_simpl.
  repeat split.
  - rewrite content_append_eq, content_append_all, Ht1.
    unfold log_text. fold p. by rewrite !str_app_assoc.
  - intros q Hq. rewrite files_append_ne by done.
    rewrite files_append_all_ne by done. by apply Hf1.
Qed.

Lemma session_keeps_every_line_witness :
  Fs.content
    (session [mk_request sample_clocks INFO "third";
              mk_request sample_clocks DEBUG "hidden";
              mk_request sample_clocks ERR "fourth"]
       sample_logger_pending sample_world later_wall).2 "./logs/app.log" =
  log_text sample_logger_pending sample_world +:+
  concat_lines
    (request_line sample_logger_pending <$>
     [mk_request sample_clocks INFO "third";
      mk_request sample_clocks DEBUG "hidden";
      mk_request sample_clocks ERR "fourth"]) +:+
  shutdown_marker later_wall.
Proof.
  apply (session_keeps_every_line
           [mk_request sample_clocks INFO "third";
            mk_request sample_clocks DEBUG "hidden";
            mk_request sample_clocks ERR "fourth"]
           sample_logger_pending sample_world later_wall).
  - unfold steady_state. vm_compute. repeat split; discriminate.
  - reflexivity.
Defined.
